(** * cv-ai: the field classification and autofill helpers of [utils.js]

    A shallow embedding of the helper namespace [window.CVAUtils]
    (profile normalisation, fillability, label geometry, field scoring and
    value injection) together with the properties its specification states.

    JavaScript strings are sequences of UTF-16 code units; they are modelled
    as lists of code units.  The host's Unicode tables ([toLowerCase], the
    [\p{L}] and [\p{N}] classes) are tabulated for the Basic Latin, Latin-1
    Supplement and Latin Extended-A blocks, which contain every character of
    the bilingual dictionary of the program; code units beyond U+017F are
    taken as case-invariant and as neither letters nor digits.  Geometry uses
    the kernel's binary64 floats, which are JavaScript's numbers.

    An element is a record of what the helpers read from it and of what they
    do to it: its value, and the trace of writes and dispatched events.  The
    two exceptions an injection can meet are a [null] element and a host that
    refuses the value (as a file input refuses every name but the empty
    one). *)

From Stdlib Require Import List NArith ZArith Bool String Ascii Lia.
From Stdlib Require Import Floats.PrimFloat.
Import ListNotations.

Local Open Scope N_scope.

(* ===================================================================== *)
(** ** JavaScript strings *)
(* ===================================================================== *)

(** A UTF-16 code unit. *)
Abbreviation CodeUnit := N (only parsing).
Definition JsString := list CodeUnit.

(** String literals of this file are written in UTF-8, as in the source, and
    decoded to UTF-16 code units. *)
Fixpoint utf8_decode (bs : list N) : JsString :=
  match bs with
  | [] => []
  | b :: r =>
      if b <? 128 then b :: utf8_decode r
      else if b <? 224 then
        match r with
        | b2 :: r2 => ((b - 192) * 64 + (b2 - 128)) :: utf8_decode r2
        | [] => []
        end
      else if b <? 240 then
        match r with
        | b2 :: b3 :: r3 =>
            ((b - 224) * 4096 + (b2 - 128) * 64 + (b3 - 128)) :: utf8_decode r3
        | _ => []
        end
      else
        match r with
        | b2 :: b3 :: b4 :: r4 =>
            let cp := (b - 240) * 262144 + (b2 - 128) * 4096
                      + (b3 - 128) * 64 + (b4 - 128) in
            let v := cp - 65536 in
            (55296 + v / 1024) :: (56320 + v mod 1024) :: utf8_decode r4
        | _ => []
        end
  end.

Definition js (s : string) : JsString :=
  utf8_decode (map N_of_ascii (list_ascii_of_string s)).

Fixpoint str_eqb (a b : JsString) : bool :=
  match a, b with
  | [], [] => true
  | x :: a', y :: b' => (x =? y) && str_eqb a' b'
  | _, _ => false
  end.

(** Truthiness of a string: non-empty. *)
Definition truthy (s : JsString) : bool :=
  match s with [] => false | _ :: _ => true end.

(** The [\s] class of regular expressions, which is also what [trim]
    removes: WhiteSpace and LineTerminator code points. *)
Definition isWs (c : CodeUnit) : bool :=
  existsb (N.eqb c)
    [9; 10; 11; 12; 13; 32; 160; 5760; 8232; 8233; 8239; 8287; 12288; 65279]
  || ((8192 <=? c) && (c <=? 8202)).

Fixpoint trimStart (s : JsString) : JsString :=
  match s with
  | [] => []
  | c :: r => if isWs c then trimStart r else s
  end.

Definition trimEnd (s : JsString) : JsString := rev (trimStart (rev s)).

Definition trim (s : JsString) : JsString := trimEnd (trimStart s).

(** [String.prototype.toLowerCase], one code unit at a time.  U+0130 is the
    one character of the tabulated blocks whose lower case has two units. *)
Definition lowerUnit (c : CodeUnit) : JsString :=
  if (65 <=? c) && (c <=? 90) then [c + 32]
  else if (192 <=? c) && (c <=? 222) && negb (c =? 215) then [c + 32]
  else if c =? 304 then [105; 775]
  else if c =? 376 then [255]
  else if (((256 <=? c) && (c <=? 303)) || ((306 <=? c) && (c <=? 311))
           || ((330 <=? c) && (c <=? 375))) && N.even c then [c + 1]
  else if (((313 <=? c) && (c <=? 328)) || ((377 <=? c) && (c <=? 382)))
          && N.odd c then [c + 1]
  else [c].

Definition toLowerCase (s : JsString) : JsString := flat_map lowerUnit s.

(** Case folding of the ASCII letters only: what the [i] flag of a regular
    expression without the [u] flag does for a pattern of ASCII letters. *)
Definition asciiLower (c : CodeUnit) : CodeUnit :=
  if (65 <=? c) && (c <=? 90) then c + 32 else c.

Fixpoint startsWith (s p : JsString) {struct p} : bool :=
  match p, s with
  | [], _ => true
  | x :: p', y :: s' => (x =? y) && startsWith s' p'
  | _ :: _, [] => false
  end.

(** [s.includes(p)] *)
Fixpoint includes (s p : JsString) : bool :=
  startsWith s p ||
  match s with
  | [] => false
  | _ :: s' => includes s' p
  end.

(** [parts.join(sep)] *)
Fixpoint join (sep : JsString) (parts : list JsString) : JsString :=
  match parts with
  | [] => []
  | [p] => p
  | p :: rest => p ++ sep ++ join sep rest
  end.

(** [s.split(/\s+/)]: [cur] is the piece being read, reversed, and
    [skipping] tells that the previous unit belonged to a separator. *)
Fixpoint split_ws_from (cur : JsString) (skipping : bool) (s : JsString)
  : list JsString :=
  match s with
  | [] => [rev cur]
  | c :: r =>
      if isWs c then
        if skipping then split_ws_from cur true r
        else rev cur :: split_ws_from [] true r
      else split_ws_from (c :: cur) false r
  end.

Definition split_ws (s : JsString) : list JsString := split_ws_from [] false s.

(** [.filter(Boolean)] on an array of strings *)
Definition filterBoolean (l : list JsString) : list JsString :=
  filter truthy l.

(* ===================================================================== *)
(** ** Values and the normaliser *)
(* ===================================================================== *)

(** The values the helpers receive where a string is expected. *)
Inductive JsVal : Type :=
| JsUndefined
| JsNull
| JsStr (s : JsString).

Definition safeStr (v : JsVal) : JsString :=
  match v with
  | JsUndefined | JsNull => []
  | JsStr s => trim s
  end.

(** [x || ""] *)
Definition orEmpty (v : JsVal) : JsString :=
  match v with
  | JsStr s => s
  | _ => []
  end.

Definition isDigit (c : CodeUnit) : bool := (48 <=? c) && (c <=? 57).

Definition isAsciiLetter (c : CodeUnit) : bool :=
  ((65 <=? c) && (c <=? 90)) || ((97 <=? c) && (c <=? 122)).

Definition normalizePhone (phone : JsVal) : JsString :=
  let p := safeStr phone in
  if negb (truthy p) then []
  else
    let plus := startsWith (trim p) (js "+") in
    let p := filter isDigit p in
    if plus then js "+" ++ p else p.

(** [/^https?:\/\//i.test(u)] *)
Definition hasScheme (u : JsString) : bool :=
  let l := map asciiLower u in
  startsWith l (js "http://") || startsWith l (js "https://").

(** [[a-z0-9.-]] under the [i] flag *)
Definition isDomainChar (c : CodeUnit) : bool :=
  isAsciiLetter c || isDigit c || (c =? 46) || (c =? 45).

Definition twoLetters (s : JsString) : bool :=
  match s with
  | a :: b :: _ => isAsciiLetter a && isAsciiLetter b
  | _ => false
  end.

(** [/^[a-z0-9.-]+\.[a-z]{2,}/i.test(u)]: [seen] tells that at least one
    unit of the class has been read. *)
Fixpoint domainFrom (seen : bool) (s : JsString) : bool :=
  match s with
  | [] => false
  | c :: r =>
      (seen && (c =? 46) && twoLetters r)
      || (isDomainChar c && domainFrom true r)
  end.

Definition looksLikeDomain (u : JsString) : bool := domainFrom false u.

Definition normalizeUrl (url : JsVal) : JsString :=
  let u := safeStr url in
  if negb (truthy u) then []
  else if negb (hasScheme u) && looksLikeDomain u then js "https://" ++ u
  else u.

Record RawProfile : Type := mkRaw {
  raw_firstName : JsVal;
  raw_lastName : JsVal;
  raw_fullName : JsVal;
  raw_email : JsVal;
  raw_phone : JsVal;
  raw_addressLine : JsVal;
  raw_city : JsVal;
  raw_state : JsVal;
  raw_postalCode : JsVal;
  raw_country : JsVal;
  raw_linkedin : JsVal;
  raw_github : JsVal;
  raw_website : JsVal;
  raw_dateOfBirth : JsVal;
  raw_summary : JsVal;
  raw_coverLetter : JsVal;
  raw_graduationYear : JsVal;
  raw_experienceYears : JsVal;
  raw_salaryExpectation : JsVal
}.

Record Profile : Type := mkProfile {
  firstName : JsString;
  lastName : JsString;
  fullName : JsString;
  email : JsString;
  phone : JsString;
  addressLine : JsString;
  city : JsString;
  state : JsString;
  postalCode : JsString;
  country : JsString;
  linkedin : JsString;
  github : JsString;
  website : JsString;
  dateOfBirth : JsString;
  summary : JsString;
  coverLetter : JsString;
  graduationYear : JsString;
  experienceYears : JsString;
  salaryExpectation : JsString
}.

(** The object literal that opens [normalizeProfile]. *)
Definition coerceProfile (raw : RawProfile) : Profile :=
  {| firstName := safeStr (raw_firstName raw);
     lastName := safeStr (raw_lastName raw);
     fullName := safeStr (raw_fullName raw);
     email := toLowerCase (safeStr (raw_email raw));
     phone := normalizePhone (raw_phone raw);
     addressLine := safeStr (raw_addressLine raw);
     city := safeStr (raw_city raw);
     state := safeStr (raw_state raw);
     postalCode := safeStr (raw_postalCode raw);
     country := safeStr (raw_country raw);
     linkedin := normalizeUrl (raw_linkedin raw);
     github := normalizeUrl (raw_github raw);
     website := normalizeUrl (raw_website raw);
     dateOfBirth := safeStr (raw_dateOfBirth raw);
     summary := safeStr (raw_summary raw);
     coverLetter := safeStr (raw_coverLetter raw);
     graduationYear := safeStr (raw_graduationYear raw);
     experienceYears := safeStr (raw_experienceYears raw);
     salaryExpectation := safeStr (raw_salaryExpectation raw) |}.

Definition set_fullName (p : Profile) (v : JsString) : Profile :=
  mkProfile (firstName p) (lastName p) v (email p) (phone p) (addressLine p)
    (city p) (state p) (postalCode p) (country p) (linkedin p) (github p)
    (website p) (dateOfBirth p) (summary p) (coverLetter p)
    (graduationYear p) (experienceYears p) (salaryExpectation p).

Definition set_firstName (p : Profile) (v : JsString) : Profile :=
  mkProfile v (lastName p) (fullName p) (email p) (phone p) (addressLine p)
    (city p) (state p) (postalCode p) (country p) (linkedin p) (github p)
    (website p) (dateOfBirth p) (summary p) (coverLetter p)
    (graduationYear p) (experienceYears p) (salaryExpectation p).

Definition set_lastName (p : Profile) (v : JsString) : Profile :=
  mkProfile (firstName p) v (fullName p) (email p) (phone p) (addressLine p)
    (city p) (state p) (postalCode p) (country p) (linkedin p) (github p)
    (website p) (dateOfBirth p) (summary p) (coverLetter p)
    (graduationYear p) (experienceYears p) (salaryExpectation p).

(** "Derive fullName if missing" *)
Definition deriveFullName (p : Profile) : Profile :=
  if negb (truthy (fullName p)) then
    let fn := firstName p in
    let ln := lastName p in
    set_fullName p (trim (join (js " ") (filterBoolean [fn; ln])))
  else p.

(** "Derive first/last if missing but fullName exists" *)
Definition deriveFirstLast (p : Profile) : Profile :=
  if (negb (truthy (firstName p)) || negb (truthy (lastName p)))
     && truthy (fullName p) then
    let parts := filterBoolean (split_ws (fullName p)) in
    if (2 <=? List.length parts)%nat then
      let p1 := if negb (truthy (firstName p))
                then set_firstName p (hd [] parts) else p in
      if negb (truthy (lastName p1))
      then set_lastName p1 (join (js " ") (tl parts)) else p1
    else p
  else p.

Definition normalizeProfile (raw : RawProfile) : Profile :=
  deriveFirstLast (deriveFullName (coerceProfile raw)).

(** [normalizeProfile()] and [normalizeProfile({})] *)
Definition emptyRaw : RawProfile :=
  mkRaw JsUndefined JsUndefined JsUndefined JsUndefined JsUndefined
        JsUndefined JsUndefined JsUndefined JsUndefined JsUndefined
        JsUndefined JsUndefined JsUndefined JsUndefined JsUndefined
        JsUndefined JsUndefined JsUndefined JsUndefined.

(** A canonical profile read back as an input of [normalizeProfile]. *)
Definition asRaw (p : Profile) : RawProfile :=
  mkRaw (JsStr (firstName p)) (JsStr (lastName p)) (JsStr (fullName p))
        (JsStr (email p)) (JsStr (phone p)) (JsStr (addressLine p))
        (JsStr (city p)) (JsStr (state p)) (JsStr (postalCode p))
        (JsStr (country p)) (JsStr (linkedin p)) (JsStr (github p))
        (JsStr (website p)) (JsStr (dateOfBirth p)) (JsStr (summary p))
        (JsStr (coverLetter p)) (JsStr (graduationYear p))
        (JsStr (experienceYears p)) (JsStr (salaryExpectation p)).

Definition adaRaw : RawProfile :=
  mkRaw (JsStr (js "Ada")) (JsStr (js "Lovelace")) JsUndefined
        (JsStr (js "ADA@X.COM")) JsUndefined
        JsUndefined JsUndefined JsUndefined JsUndefined JsUndefined
        JsUndefined JsUndefined JsUndefined JsUndefined JsUndefined
        JsUndefined JsUndefined JsUndefined JsUndefined.

(* ===================================================================== *)
(** ** Elements of the host document *)
(* ===================================================================== *)

(** The attributes the helpers read with [getAttribute]. *)
Inductive Attr : Type :=
| A_type | A_placeholder | A_aria_label | A_name | A_id | A_autocomplete
| A_data_testid | A_data_test | A_data_qa.

(** [getBoundingClientRect()]: the edges the helpers read. *)
Record DOMRect : Type := mkRect {
  top : float;
  left : float;
  bottom : float;
  right : float
}.

(** A label-like element of the container of a candidate. *)
Record LabelEl : Type := mkLabel {
  l_innerText : JsVal;
  l_rect : DOMRect
}.

(** The outcome of looking for the label-like elements around an element:
    [el.closest("div, section, form, fieldset") || el.parentElement] and the
    [querySelectorAll] on it, in document order. *)
Inductive LabelLookup : Type :=
| Labels (ls : list LabelEl)
| NoContainer
| LookupThrows.

Record OptionEl : Type := mkOption {
  opt_value : JsString;
  opt_textContent : JsString
}.

Inductive EventName : Type := EvInput | EvChange.

(** What an injection does to the host element, in order. *)
Inductive Effect : Type :=
| EffNativeSet (v : JsString)
| EffAssign (v : JsString)
| EffDispatch (ev : EventName).

Record JsError : Type := mkError {
  err_name : JsString;
  err_message : JsString
}.

Record Element : Type := mkElement {
  tagName : JsVal;
  getAttribute : Attr -> JsVal;
  value : JsString;
  options : list OptionEl;
  (** [innerText] of [document.querySelector(`label[for=id]`)], if found *)
  labelFor : option JsVal;
  (** [innerText] of [el.closest("label")], if any *)
  parentLabel : option JsVal;
  rect : DOMRect;
  nearLabels : LabelLookup;
  (** whether the prototype of the element has a [value] accessor *)
  protoValueSetter : bool;
  (** the exception with which the host refuses to write a value, if any *)
  writeError : JsString -> option JsError;
  (** what the host keeps of a string written to [value], as [value] reads
      afterwards: the value sanitization algorithm of the element *)
  sanitize : JsString -> JsString;
  trace : list Effect
}.

Definition isFillableElement (el : option Element) : bool :=
  match el with
  | None => false
  | Some el =>
      let tag := toLowerCase (orEmpty (tagName el)) in
      if str_eqb tag (js "textarea") || str_eqb tag (js "select") then true
      else if negb (str_eqb tag (js "input")) then false
      else
        let type :=
          toLowerCase
            (if truthy (orEmpty (getAttribute el A_type))
             then orEmpty (getAttribute el A_type) else js "text") in
        if str_eqb type (js "password") then false
        else if str_eqb type (js "hidden") then false
        else if str_eqb type (js "file") then false
        else if str_eqb type (js "submit") || str_eqb type (js "button")
                || str_eqb type (js "reset") then false
        else if str_eqb type (js "checkbox") || str_eqb type (js "radio")
        then false
        else true
  end.

(** What the host keeps of a written string depends on the element.  An input
    in the Text state (also Search, Telephone and Password) drops the line
    breaks. *)
Definition stripNewlines (s : JsString) : JsString :=
  filter (fun c => negb ((c =? 10) || (c =? 13))%N) s.

Definition isHexDigit (c : CodeUnit) : bool :=
  ((48 <=? c) && (c <=? 57) || (65 <=? c) && (c <=? 70)
   || (97 <=? c) && (c <=? 102))%N.

(** A valid simple colour: "#" and six hexadecimal digits. *)
Definition isSimpleColor (s : JsString) : bool :=
  match s with
  | c :: digits =>
      (c =? 35)%N && Nat.eqb (List.length digits) 6 && forallb isHexDigit digits
  | [] => false
  end.

(** An input in the Colour state keeps a valid simple colour, in lower case,
    and replaces anything else by "#000000". *)
Definition sanitizeColor (s : JsString) : JsString :=
  if isSimpleColor s then map asciiLower s else js "#000000".

(* ===================================================================== *)
(** ** Nearest label by geometry *)
(* ===================================================================== *)

(** [Math.min] on two numbers *)
Definition Math_min (a b : float) : float :=
  if PrimFloat.is_nan a then a
  else if PrimFloat.is_nan b then b
  else if PrimFloat.ltb b a then b
  else if PrimFloat.ltb a b then a
  else if PrimFloat.get_sign a then a else b.

Definition verticalDist (er r : DOMRect) : float :=
  PrimFloat.abs (PrimFloat.sub (top er) (bottom r)).

Definition horizontalDist (er r : DOMRect) : float :=
  PrimFloat.abs (PrimFloat.sub (left er) (right r)).

Definition isAbove (er r : DOMRect) : bool :=
  PrimFloat.leb (bottom r) (PrimFloat.add (top er) 8%float).

Definition isLeft (er r : DOMRect) : bool :=
  PrimFloat.leb (right r) (PrimFloat.add (left er) 8%float).

Definition labelDist (er r : DOMRect) : float :=
  Math_min (verticalDist er r) (horizontalDist er r).

Record LabelCandidate : Type := mkCandidate {
  c_text : JsString;
  c_dist : float
}.

(** One turn of the [labels.forEach] callback: what it pushes. *)
Definition labelCandidate (er : DOMRect) (l : LabelEl) : list LabelCandidate :=
  let text := safeStr (l_innerText l) in
  if negb (truthy text) then []
  else
    let r := l_rect l in
    if (isAbove er r || isLeft er r)
       && PrimFloat.ltb (labelDist er r) 80%float
    then [mkCandidate text (labelDist er r)]
    else [].

(** [a.dist - b.dist <= 0]: the comparator keeps [a] before [b]. *)
Definition distLe (a b : LabelCandidate) : bool :=
  PrimFloat.leb (PrimFloat.sub (c_dist a) (c_dist b)) 0%float.

Fixpoint insertByDist (x : LabelCandidate) (l : list LabelCandidate)
  : list LabelCandidate :=
  match l with
  | [] => [x]
  | y :: l' => if distLe x y then x :: l else y :: insertByDist x l'
  end.

(** [Array.prototype.sort] is stable: an insertion from the right keeps
    equal keys in their order. *)
Definition sortByDist (l : list LabelCandidate) : list LabelCandidate :=
  fold_right insertByDist [] l.

Definition findNearestLabelText (el : Element) : JsString :=
  match nearLabels el with
  | LookupThrows => []
  | NoContainer => []
  | Labels labels =>
      let labelCandidates := flat_map (labelCandidate (rect el)) labels in
      match sortByDist labelCandidates with
      | c :: _ => c_text c
      | [] => []
      end
  end.

(* ===================================================================== *)
(** ** Signals and tokens *)
(* ===================================================================== *)

Inductive Source : Type :=
| SrcPlaceholder | SrcAriaLabel | SrcName | SrcId | SrcAutocomplete
| SrcDataTestid | SrcDataTest | SrcDataQa
| SrcLabelFor | SrcLabelWrap | SrcNearLabel.

Record Signal : Type := mkSignal {
  text : JsString;
  weight : Z;
  source : Source
}.

(** The local [add] of [getElementTextSignals]. *)
Definition add (s : JsVal) (w : Z) (src : Source) (signals : list Signal)
  : list Signal :=
  let t := safeStr s in
  if negb (truthy t) then signals else signals ++ [mkSignal t w src].

Definition getElementTextSignals (el : Element) : list Signal :=
  let signals := [] in
  let signals := add (getAttribute el A_placeholder) 4 SrcPlaceholder signals in
  let signals := add (getAttribute el A_aria_label) 5 SrcAriaLabel signals in
  let signals := add (getAttribute el A_name) 3 SrcName signals in
  let signals := add (getAttribute el A_id) 3 SrcId signals in
  let signals := add (getAttribute el A_autocomplete) 7 SrcAutocomplete signals in
  let signals := add (getAttribute el A_data_testid) 2 SrcDataTestid signals in
  let signals := add (getAttribute el A_data_test) 2 SrcDataTest signals in
  let signals := add (getAttribute el A_data_qa) 2 SrcDataQa signals in
  let signals :=
    if truthy (orEmpty (getAttribute el A_id)) then
      match labelFor el with
      | Some lbl => add lbl 9 SrcLabelFor signals
      | None => signals
      end
    else signals in
  let signals :=
    match parentLabel el with
    | Some lbl => add lbl 9 SrcLabelWrap signals
    | None => signals
    end in
  let near := findNearestLabelText el in
  if truthy near then add (JsStr near) 6 SrcNearLabel signals else signals.

(** [\p{L}] on the tabulated blocks *)
Definition isLetter (c : CodeUnit) : bool :=
  isAsciiLetter c || (c =? 170) || (c =? 181) || (c =? 186)
  || ((192 <=? c) && (c <=? 214)) || ((216 <=? c) && (c <=? 246))
  || ((248 <=? c) && (c <=? 383)).

(** [\p{N}] on the tabulated blocks *)
Definition isNumber (c : CodeUnit) : bool :=
  isDigit c || (c =? 178) || (c =? 179) || (c =? 185)
  || ((188 <=? c) && (c <=? 190)).

Definition isSeparator (c : CodeUnit) : bool :=
  (c =? 95) || (c =? 47) || (c =? 92) || (c =? 124).

(** [.replace(/[...]+/g, " ")] for a class [p] of code units: every maximal
    run of the class becomes one space. *)
Fixpoint replaceRuns (p : CodeUnit -> bool) (inRun : bool) (s : JsString)
  : JsString :=
  match s with
  | [] => []
  | c :: r =>
      if p c then
        if inRun then replaceRuns p true r
        else 32 :: replaceRuns p true r
      else c :: replaceRuns p false r
  end.

(** [.replace(/[_/\\|]+/g, " ")] *)
Definition replaceSeparators (s : JsString) : JsString :=
  replaceRuns isSeparator false s.

(** [.replace(/[^\p{L}\p{N}\s+-]/gu, " ")] *)
Definition replaceOthers (s : JsString) : JsString :=
  map (fun c =>
         if isLetter c || isNumber c || isWs c || (c =? 43) || (c =? 45)
         then c else 32) s.

Definition STOP_WORDS : list JsString :=
  [js "*"; js ":"; js "-"; js "—"; js "("; js ")"; js "["; js "]"].

Definition tokenize (t0 : JsVal) : list JsString :=
  let t := toLowerCase (safeStr t0) in
  if negb (truthy t) then []
  else
    let cleaned := replaceOthers (replaceSeparators t) in
    let parts := filterBoolean (split_ws cleaned) in
    filter (fun p => negb (existsb (str_eqb p) STOP_WORDS)) parts.

(* ===================================================================== *)
(** ** Field types and their dictionaries *)
(* ===================================================================== *)

Inductive FieldType : Type :=
| FT_firstName | FT_lastName | FT_fullName | FT_email | FT_phone
| FT_addressLine | FT_city | FT_state | FT_postalCode | FT_country
| FT_linkedin | FT_github | FT_website | FT_dateOfBirth | FT_summary
| FT_coverLetter | FT_graduationYear | FT_experienceYears
| FT_salaryExpectation.

Definition FieldType_eqb (a b : FieldType) : bool :=
  match a, b with
  | FT_firstName, FT_firstName | FT_lastName, FT_lastName
  | FT_fullName, FT_fullName | FT_email, FT_email | FT_phone, FT_phone
  | FT_addressLine, FT_addressLine | FT_city, FT_city | FT_state, FT_state
  | FT_postalCode, FT_postalCode | FT_country, FT_country
  | FT_linkedin, FT_linkedin | FT_github, FT_github
  | FT_website, FT_website | FT_dateOfBirth, FT_dateOfBirth
  | FT_summary, FT_summary | FT_coverLetter, FT_coverLetter
  | FT_graduationYear, FT_graduationYear
  | FT_experienceYears, FT_experienceYears
  | FT_salaryExpectation, FT_salaryExpectation => true
  | _, _ => false
  end.

Definition FIELD_SYNONYMS (ft : FieldType) : list JsString :=
  map js
  match ft with
  | FT_firstName =>
      ["first name"; "given name"; "forename"; "ad"; "isim"; "adı";
       "adınız"; "adiniz"]
  | FT_lastName =>
      ["last name"; "surname"; "family name"; "soyad"; "soyadı";
       "soyadınız"; "soyadiniz"]
  | FT_fullName =>
      ["full name"; "name"; "your name"; "ad soyad"; "isim soyisim";
       "adınız soyadınız"; "adiniz soyadiniz"]
  | FT_email => ["email"; "e-mail"; "mail"; "eposta"; "e posta"; "e-posta"]
  | FT_phone =>
      ["phone"; "mobile"; "telephone"; "tel"; "cell"; "telefon"; "cep";
       "gsm"; "mobil"]
  | FT_addressLine =>
      ["address"; "address line"; "street"; "street address"; "adres";
       "adres satırı"; "sokak"; "cadde"; "mahalle"]
  | FT_city => ["city"; "town"; "şehir"; "sehir"; "ilçe"; "ilce"; "il"]
  | FT_state =>
      ["state"; "province"; "region"; "eyalet"; "bölge"; "bolge"; "il"]
  | FT_postalCode =>
      ["zip"; "zipcode"; "postal"; "postal code"; "posta kodu"; "pk";
       "zip code"]
  | FT_country => ["country"; "nation"; "ülke"; "ulke"]
  | FT_linkedin =>
      ["linkedin"; "linked in"; "linkedin url"; "linkedin profili"]
  | FT_github => ["github"; "github url"; "git hub"]
  | FT_website =>
      ["website"; "web site"; "portfolio"; "site"; "kişisel site";
       "kisisel site"; "portföy"; "portfoy"]
  | FT_dateOfBirth =>
      ["date of birth"; "birth date"; "dob"; "birthday"; "doğum tarihi";
       "dogum tarihi"]
  | FT_summary =>
      ["summary"; "about"; "about me"; "bio"; "profil"; "hakkımda";
       "hakkimda"; "özet"; "ozet"]
  | FT_coverLetter =>
      ["cover letter"; "motivation letter"; "additional information";
       "additional info"; "anything else"; "message"; "notes"; "comment";
       "ön yazı"; "on yazı"; "niyet mektubu"; "ek bilgi"; "ek bilgiler";
       "mesaj"; "not"; "açıklama"; "aciklama"]
  | FT_graduationYear =>
      ["graduation year"; "graduation date"; "graduated"; "degree date";
       "mezuniyet"; "mezuniyet yılı"; "mezuniyet yili"; "mezun olma";
       "mezun oldum"]
  | FT_experienceYears =>
      ["years of experience"; "experience"; "work experience"; "yoe";
       "tecrübe"; "tecrube"; "deneyim"; "kaç yıl"; "kac yil"; "yıl deneyim"]
  | FT_salaryExpectation =>
      ["salary expectation"; "expected salary"; "salary"; "compensation";
       "pay"; "maaş beklentisi"; "maas beklentisi"; "beklenen maaş";
       "ucret"; "ücret"; "maaş"; "maas"]
  end%string.

(** The own properties of the object literal [AUTOCOMPLETE_MAP]. *)
Definition AUTOCOMPLETE_MAP : list (JsString * FieldType) :=
  [ (js "given-name", FT_firstName);
    (js "additional-name", FT_firstName);
    (js "family-name", FT_lastName);
    (js "name", FT_fullName);
    (js "email", FT_email);
    (js "tel", FT_phone);
    (js "tel-national", FT_phone);
    (js "tel-country-code", FT_phone);
    (js "street-address", FT_addressLine);
    (js "address-line1", FT_addressLine);
    (js "address-line2", FT_addressLine);
    (js "address-level2", FT_city);
    (js "address-level1", FT_state);
    (js "postal-code", FT_postalCode);
    (js "country", FT_country);
    (js "bday", FT_dateOfBirth) ].

(** The properties every object literal inherits from [Object.prototype]:
    functions, and the prototype object itself under [__proto__]. *)
Definition OBJECT_PROTOTYPE_KEYS : list JsString :=
  map js
    ["constructor"; "__defineGetter__"; "__defineSetter__"; "hasOwnProperty";
     "__lookupGetter__"; "__lookupSetter__"; "isPrototypeOf";
     "propertyIsEnumerable"; "toString"; "valueOf"; "__proto__";
     "toLocaleString"]%string.

(** What the property read [AUTOCOMPLETE_MAP[ac]] evaluates to. *)
Inductive MapValue : Type :=
| Mapped (ft : FieldType)   (** an own property: a field type name *)
| Inherited                 (** a member of [Object.prototype]: truthy *)
| Unmapped.                 (** [undefined] *)

Fixpoint ownProperty (m : list (JsString * FieldType)) (k : JsString)
  : option FieldType :=
  match m with
  | [] => None
  | (k', v) :: m' => if str_eqb k' k then Some v else ownProperty m' k
  end.

Definition autocompleteLookup (ac : JsString) : MapValue :=
  match ownProperty AUTOCOMPLETE_MAP ac with
  | Some ft => Mapped ft
  | None =>
      if existsb (str_eqb ac) OBJECT_PROTOTYPE_KEYS then Inherited
      else Unmapped
  end.

(* ===================================================================== *)
(** ** The scorer *)
(* ===================================================================== *)

Local Open Scope Z_scope.

(** The strings pushed to [reasons], by shape. *)
Inductive Reason : Type :=
| RAutocomplete (ac : JsString)
| RAutocompleteMismatch (ac : JsString)
| RType (t : JsString) (bonus : Z)
| RSignal (src : Source) (local : Z) (w : Z)
| RPattern (bonus : Z)
| RSearchLike.

(** The two accumulators of [scoreFieldType]. *)
Record ScoreResult : Type := mkScore {
  score : Z;
  reasons : list Reason
}.

(** [score += d; reasons.push(r)] *)
Definition bump (d : Z) (r : Reason) (acc : ScoreResult) : ScoreResult :=
  mkScore (score acc + d) (reasons acc ++ [r]).

(** "Autocomplete exact mapping" *)
Definition scoreAutocomplete (el : Element) (fieldType : FieldType)
  (acc : ScoreResult) : ScoreResult :=
  let ac := toLowerCase (safeStr (getAttribute el A_autocomplete)) in
  if truthy ac then
    match autocompleteLookup ac with
    | Mapped mapped =>
        if FieldType_eqb mapped fieldType then bump 30 (RAutocomplete ac) acc
        else bump (-8) (RAutocompleteMismatch ac) acc
    | Inherited => bump (-8) (RAutocompleteMismatch ac) acc
    | Unmapped => acc
    end
  else acc.

Definition when (b : bool) (f : ScoreResult -> ScoreResult)
  (acc : ScoreResult) : ScoreResult :=
  if b then f acc else acc.

(** "Input type help" *)
Definition scoreInputType (el : Element) (fieldType : FieldType)
  (acc : ScoreResult) : ScoreResult :=
  let tag := toLowerCase (orEmpty (tagName el)) in
  if str_eqb tag (js "input") then
    let t0 := toLowerCase (safeStr (getAttribute el A_type)) in
    let t := if truthy t0 then t0 else js "text" in
    let acc :=
      when (FieldType_eqb fieldType FT_email && str_eqb t (js "email"))
           (bump 18 (RType t 18)) acc in
    let acc :=
      when (FieldType_eqb fieldType FT_phone && str_eqb t (js "tel"))
           (bump 16 (RType t 16)) acc in
    let acc :=
      when ((FieldType_eqb fieldType FT_website
             || FieldType_eqb fieldType FT_linkedin
             || FieldType_eqb fieldType FT_github) && str_eqb t (js "url"))
           (bump 10 (RType t 10)) acc in
    let acc :=
      when (FieldType_eqb fieldType FT_dateOfBirth && str_eqb t (js "date"))
           (bump 18 (RType t 18)) acc in
    when (FieldType_eqb fieldType FT_salaryExpectation
          && str_eqb t (js "number"))
         (bump 10 (RType t 10)) acc
  else acc.

Definition synonymTokens (fieldType : FieldType) : list JsString :=
  flat_map (fun s => tokenize (JsStr s)) (FIELD_SYNONYMS fieldType).

Definition ambiguousNameToken (tok : JsString) : bool :=
  str_eqb tok (js "name") || str_eqb tok (js "isim").

(** The inner loop over the tokens of one signal. *)
Definition countSynonyms (fieldType : FieldType) (tokens : list JsString)
  : Z :=
  fold_left
    (fun local tok =>
       if existsb (str_eqb tok) (synonymTokens fieldType)
       then local + 3 else local)
    tokens 0.

(** The value of [local] at the end of one turn of the loop over signals. *)
Definition localScore (fieldType : FieldType) (tokens : list JsString) : Z :=
  let local := countSynonyms fieldType tokens in
  if FieldType_eqb fieldType FT_fullName then
    if existsb ambiguousNameToken tokens then local + 3 else local
  else if existsb ambiguousNameToken tokens
          && negb (FieldType_eqb fieldType FT_firstName)
          && negb (FieldType_eqb fieldType FT_lastName)
  then local - 2
  else local.

Definition scoreSignal (fieldType : FieldType) (acc : ScoreResult)
  (s : Signal) : ScoreResult :=
  let local := localScore fieldType (tokenize (JsStr (text s))) in
  if negb (local =? 0) then
    bump (local * weight s) (RSignal (source s) local (weight s)) acc
  else acc.

(** "Keyword matching in signals" *)
Definition scoreSignals (el : Element) (fieldType : FieldType)
  (acc : ScoreResult) : ScoreResult :=
  fold_left (scoreSignal fieldType) (getElementTextSignals el) acc.

(** A regular expression that is an alternative of plain words, under the
    [i] flag. *)
Definition reWord (nm : JsString) (w : string) : bool :=
  includes (map asciiLower nm) (js w).

(** [a[-_ ]?b] under the [i] flag *)
Definition reOptSep (nm : JsString) (a b : string) : bool :=
  reWord nm (a ++ b) || reWord nm (a ++ "-" ++ b)
  || reWord nm (a ++ "_" ++ b) || reWord nm (a ++ " " ++ b).

(** [^w$] under the [i] flag *)
Definition reWhole (nm : JsString) (w : string) : bool :=
  str_eqb (map asciiLower nm) (js w).

(** "Extra: known IDs/names patterns" *)
Definition scorePatterns (el : Element) (fieldType : FieldType)
  (acc : ScoreResult) : ScoreResult :=
  let nm := toLowerCase (safeStr (getAttribute el A_name) ++ js " "
                         ++ safeStr (getAttribute el A_id)) in
  if truthy nm then
    let acc :=
      when (FieldType_eqb fieldType FT_firstName
            && (reOptSep nm "first" "name" || reOptSep nm "given" "name"
                || reWhole nm "fname" || reWord nm "ad"))
           (bump 20 (RPattern 20)) acc in
    let acc :=
      when (FieldType_eqb fieldType FT_lastName
            && (reOptSep nm "last" "name" || reOptSep nm "family" "name"
                || reOptSep nm "sur" "name"
                || reWhole nm "lname" || reWord nm "soyad"))
           (bump 20 (RPattern 20)) acc in
    let acc :=
      when (FieldType_eqb fieldType FT_email
            && (reOptSep nm "e" "mail" || reWord nm "email"))
           (bump 16 (RPattern 16)) acc in
    let acc :=
      when (FieldType_eqb fieldType FT_phone
            && (reWord nm "phone" || reWord nm "mobile" || reWord nm "tel"
                || reWord nm "gsm" || reWord nm "cep" || reWord nm "telefon"))
           (bump 14 (RPattern 14)) acc in
    let acc :=
      when (FieldType_eqb fieldType FT_postalCode
            && (reWord nm "zip" || reWord nm "postal" || reWord nm "posta"))
           (bump 12 (RPattern 12)) acc in
    let acc :=
      when (FieldType_eqb fieldType FT_linkedin && reWord nm "linkedin")
           (bump 14 (RPattern 14)) acc in
    when (FieldType_eqb fieldType FT_github && reWord nm "github")
         (bump 14 (RPattern 14)) acc
  else acc.

(** "Penalize if element seems like search" *)
Definition scoreSearchLike (el : Element) (acc : ScoreResult) : ScoreResult :=
  let ph := toLowerCase (safeStr (getAttribute el A_placeholder)) in
  if includes ph (js "search") || includes ph (js "ara")
  then bump (-10) RSearchLike acc
  else acc.

Definition scoreFieldType (el : Element) (fieldType : FieldType)
  : ScoreResult :=
  let acc := mkScore 0 [] in
  let acc := scoreAutocomplete el fieldType acc in
  let acc := scoreInputType el fieldType acc in
  let acc := scoreSignals el fieldType acc in
  let acc := scorePatterns el fieldType acc in
  scoreSearchLike el acc.

(* ===================================================================== *)
(** ** The value injector *)
(* ===================================================================== *)

Inductive MatchTier : Type := ByValue | ByText | ByFuzzy.

(** The objects the injector returns: [{ ok, from, to }],
    [{ ok, matched, to }] and [{ ok, error }]; a key the object does not
    have is [None]. *)
Record Result : Type := mkResult {
  ok : bool;
  from : option JsString;
  to : option JsString;
  matched : option MatchTier;
  error : option JsString
}.

Definition written (last val : JsString) : Result :=
  mkResult true (Some last) (Some val) None None.

Definition selected (m : MatchTier) (v : JsString) : Result :=
  mkResult true None (Some v) (Some m) None.

Definition failure (e : JsString) : Result :=
  mkResult false None None None (Some e).

(** A statement either completes or throws. *)
Inductive Completion (A : Type) : Type :=
| Normal (a : A)
| Throw (e : JsError).
Arguments Normal {A} a.
Arguments Throw {A} e.

Definition bind {A B : Type} (c : Completion A) (k : A -> Completion B)
  : Completion B :=
  match c with
  | Normal a => k a
  | Throw e => Throw e
  end.

Notation "x <- c ;; k" := (bind c (fun x => k))
  (at level 61, c at next level, right associativity).

(** [String(e)] for an error object: [Error.prototype.toString]. *)
Definition errorToString (e : JsError) : JsString :=
  if negb (truthy (err_name e)) then err_message e
  else if negb (truthy (err_message e)) then err_name e
  else err_name e ++ js ": " ++ err_message e.

(** Reading a property of [null] or [undefined]. *)
Definition nullTypeError : JsError :=
  mkError (js "TypeError")
          (js "Cannot read properties of null (reading 'tagName')").

Definition record (eff : Effect) (el : Element) : Element :=
  mkElement (tagName el) (getAttribute el) (value el) (options el)
    (labelFor el) (parentLabel el) (rect el) (nearLabels el)
    (protoValueSetter el) (writeError el) (sanitize el) (trace el ++ [eff]).

Definition storeValue (v : JsString) (el : Element) : Element :=
  mkElement (tagName el) (getAttribute el) v (options el)
    (labelFor el) (parentLabel el) (rect el) (nearLabels el)
    (protoValueSetter el) (writeError el) (sanitize el) (trace el).

(** [el.dispatchEvent(new Event(name, { bubbles: true }))]: the event is
    recorded; what the listeners of the page do with it is outside the
    model. *)
Definition dispatchEvent (ev : EventName) (el : Element) : Element :=
  record (EffDispatch ev) el.

(** [desc.set.call(el, val)] when the prototype has a setter, [el.value = val]
    otherwise; the host may refuse the write by throwing, and otherwise keeps
    its sanitised form of [val]. *)
Definition writeValue (el : Element) (val : JsString) : Completion Element :=
  match writeError el val with
  | Some e => Throw e
  | None =>
      if protoValueSetter el
      then Normal (record (EffNativeSet val) (storeValue (sanitize el val) el))
      else Normal (record (EffAssign val) (storeValue (sanitize el val) el))
  end.

Definition normalizeForCompare (s : JsString) : JsString :=
  trim (replaceRuns isWs false (toLowerCase (trim s))).

(** [selectEl.value = opt.value; selectEl.dispatchEvent(new Event("change"))] *)
Definition choose (selectEl : Element) (opt : OptionEl) : Element :=
  dispatchEvent EvChange
    (record (EffAssign (opt_value opt)) (storeValue (opt_value opt) selectEl)).

Definition valueMatches (desiredNorm : JsString) (opt : OptionEl) : bool :=
  str_eqb (normalizeForCompare (opt_value opt)) desiredNorm.

Definition textMatches (desiredNorm : JsString) (opt : OptionEl) : bool :=
  str_eqb (normalizeForCompare (opt_textContent opt)) desiredNorm.

Definition fuzzyMatches (desiredNorm : JsString) (opt : OptionEl) : bool :=
  let t := normalizeForCompare (opt_textContent opt) in
  includes t desiredNorm || includes desiredNorm t.

(** Each [for ... of] loop returns at the first option that passes its
    test: [find]. *)
Definition setSelectValue (selectEl : Element) (desired : JsVal)
  : Result * Element :=
  let desiredRaw := safeStr desired in
  if negb (truthy desiredRaw) then (failure (js "empty desired value"), selectEl)
  else
    let desiredNorm := normalizeForCompare desiredRaw in
    match find (valueMatches desiredNorm) (options selectEl) with
    | Some opt => (selected ByValue (opt_value opt), choose selectEl opt)
    | None =>
        match find (textMatches desiredNorm) (options selectEl) with
        | Some opt => (selected ByText (opt_value opt), choose selectEl opt)
        | None =>
            match find (fuzzyMatches desiredNorm) (options selectEl) with
            | Some opt =>
                (selected ByFuzzy (opt_value opt), choose selectEl opt)
            | None => (failure (js "no option match"), selectEl)
            end
        end
    end.

(** The [try] block of [setNativeValue]; [None] is a [null] element. *)
Definition setNativeValue_try (el : option Element) (v : JsVal)
  : Completion (Result * Element) :=
  match el with
  | None => Throw nullTypeError
  | Some el =>
      let tag := toLowerCase (orEmpty (tagName el)) in
      if str_eqb tag (js "select") then Normal (setSelectValue el v)
      else
        let val := safeStr v in
        let last := value el in
        el1 <- writeValue el val ;;
        let el2 := dispatchEvent EvInput el1 in
        let el3 := dispatchEvent EvChange el2 in
        Normal (written last val, el3)
  end.

(** [setNativeValue]: the result and the element as the call leaves it. *)
Definition setNativeValue (el : option Element) (v : JsVal)
  : Result * option Element :=
  match setNativeValue_try el v with
  | Normal (r, el') => (r, Some el')
  | Throw e => (failure (errorToString e), el)
  end.

(* ===================================================================== *)
(** ** Site rules ([background.js], [popup.js], [options.js]) *)
(* ===================================================================== *)

(** An object used as a map from names to values: its own properties, in
    insertion order. *)
Fixpoint getOwn {V : Type} (m : list (JsString * V)) (k : JsString)
  : option V :=
  match m with
  | [] => None
  | (k', v) :: m' => if str_eqb k' k then Some v else getOwn m' k
  end.

(** [m[k] = v] *)
Fixpoint setOwn {V : Type} (m : list (JsString * V)) (k : JsString) (v : V)
  : list (JsString * V) :=
  match m with
  | [] => [(k, v)]
  | (k', v') :: m' =>
      if str_eqb k' k then (k', v) :: m' else (k', v') :: setOwn m' k v
  end.

(** An entry of [siteRules.domains]. *)
Record DomainEntry : Type := mkEntry {
  rule : JsVal;
  enabledTypes : option (list JsString);
  disabledTypes : option (list JsString);
  customMap : option (list (JsString * JsString))
}.

Record SiteRules : Type := mkRules {
  mode : JsVal;
  domains : option (list (JsString * DomainEntry))
}.

(** [{ allowed, reason }] *)
Record Verdict : Type := mkVerdict {
  allowed : bool;
  reason : JsString
}.

(** [entry?.rule === r].  A name that [domains] only inherits from
    [Object.prototype] reads as a function or as the prototype object, whose
    [rule] is [undefined]: as for a domain without an entry, the test
    fails. *)
Definition ruleIs (entry : option DomainEntry) (r : string) : bool :=
  match entry with
  | Some e =>
      match rule e with
      | JsStr s => str_eqb s (js r)
      | _ => false
      end
  | None => false
  end.

Definition isAllowedByRules (domain : JsString) (siteRules : option SiteRules)
  : Verdict :=
  let mode :=
    match siteRules with
    | Some sr =>
        if truthy (orEmpty (mode sr)) then orEmpty (mode sr) else js "neutral"
    | None => js "neutral"
    end in
  let entry :=
    match siteRules with
    | Some sr =>
        match domains sr with
        | Some ds => getOwn ds domain
        | None => None
        end
    | None => None
    end in
  if str_eqb mode (js "neutral") then
    if ruleIs entry "blacklist"
    then mkVerdict false (js "domain blacklisted")
    else mkVerdict true (js "neutral")
  else if str_eqb mode (js "whitelist") then
    if ruleIs entry "whitelist"
    then mkVerdict true (js "domain whitelisted")
    else mkVerdict false (js "not in whitelist mode list")
  else if str_eqb mode (js "blacklist") then
    if ruleIs entry "blacklist"
    then mkVerdict false (js "domain blacklisted (mode)")
    else mkVerdict true (js "blacklist mode allow")
  else mkVerdict true (js "default allow").

(** [{ mode: "neutral", domains: {} }] *)
Definition neutralRules : SiteRules :=
  mkRules (JsStr (js "neutral")) (Some []).

(** [{}] as an entry *)
Definition emptyEntry : DomainEntry := mkEntry JsUndefined None None None.

Definition set_rule (e : DomainEntry) (r : JsVal) : DomainEntry :=
  mkEntry r (enabledTypes e) (disabledTypes e) (customMap e).

(** The four assignments that [updateDomainRule] of the popup and
    [addOrUpdateDomainRule] of the options page both make on the rules read
    from the store ([null] when there are none). *)
Definition withDomainRule (domain : JsString) (newRule : JsString)
  (stored : option SiteRules) : SiteRules :=
  let siteRules := match stored with Some sr => sr | None => neutralRules end in
  let ds := match domains siteRules with Some ds => ds | None => [] end in
  let entry := match getOwn ds domain with Some e => e | None => emptyEntry end in
  mkRules (mode siteRules) (Some (setOwn ds domain (set_rule entry (JsStr newRule)))).

(** The answer to the message [SITE_RULES_GET]: [{ ok: true, siteRules }]
    from the background page, [{ ok: false }] when nothing answers. *)
Record GetResponse : Type := mkGet {
  get_ok : bool;
  get_siteRules : option SiteRules
}.

Definition noResponse : GetResponse := mkGet false None.

(** [updateDomainRule] of the popup, for the domain of the active tab and
    the answer [get] of the store: the rules it sends back to the store,
    [None] when it returns without sending any. *)
Definition updateDomainRule (domain : JsString) (newRule : JsString)
  (get : GetResponse) : option SiteRules :=
  if negb (truthy domain) then None
  else if negb (get_ok get) then None
  else Some (withDomainRule domain newRule (get_siteRules get)).

(** [.replace(/^www\./i, "")] *)
Definition stripWww (s : JsString) : JsString :=
  if startsWith (map asciiLower s) (js "www.") then skipn 4 s else s.

(** [addOrUpdateDomainRule] of the options page, on the text of the domain
    field, the chosen rule and the answer [get] of the store. *)
Definition addOrUpdateDomainRule (domainInput : JsString)
  (domainRule : JsString) (get : GetResponse) : option SiteRules :=
  let domain := stripWww (trim domainInput) in
  if negb (truthy domain) then None
  else if negb (get_ok get) then None
  else Some (withDomainRule domain domainRule (get_siteRules get)).

(* ===================================================================== *)
(** ** Frames and their reports ([background.js], [popup.js]) *)
(* ===================================================================== *)

(** [Array.from(new Set(ids))]: the first occurrence of each value, in
    order. *)
Fixpoint uniqFrom (seen : list Z) (l : list Z) : list Z :=
  match l with
  | [] => []
  | x :: r =>
      if existsb (Z.eqb x) seen then uniqFrom seen r
      else x :: uniqFrom (x :: seen) r
  end.

(** What [getAllFrameIds] resolves with, given the frames the browser
    reports ([None] when it reports none); a frame is given by its
    [frameId] when that is a number. *)
Definition getAllFrameIds (frames : option (list (option Z))) : list Z :=
  let ids :=
    flat_map (fun f => match f with Some v => [v] | None => [] end)
             (match frames with Some fs => fs | None => [] end) in
  let ids := if negb (existsb (Z.eqb 0) ids) then 0 :: ids else ids in
  uniqFrom [] ids.

(** [report.stats]; a count that is missing is [None]. *)
Record Stats : Type := mkStats {
  st_filled : option Z;
  st_skipped : option Z;
  st_errors : option Z
}.

(** The report of one frame: its counts and the rest, which the summary
    keeps and does not read. *)
Record Report : Type := mkReport {
  stats : option Stats;
  perField : list JsString
}.

(** The answer of a content script. *)
Record Payload : Type := mkPayload {
  p_ok : bool;
  report : option Report
}.

(** What [sendToFrame] resolves with. *)
Record FrameResult : Type := mkFrameResult {
  fr_ok : bool;
  fr_frameId : Z;
  fr_res : option Payload
}.

Record Summary : Type := mkSummary {
  framesResponded : Z;
  filled : Z;
  skipped : Z;
  errors : Z;
  reports : list Report
}.

(** [x || 0] *)
Definition orZero (x : option Z) : Z :=
  match x with Some v => v | None => 0 end.

(** One turn of the loop of [summarizeFillResults]. *)
Definition summarizeFrame (summary : Summary) (fr : FrameResult) : Summary :=
  if negb (fr_ok fr) then
    mkSummary (framesResponded summary) (filled summary) (skipped summary)
              (errors summary + 1) (reports summary)
  else
    match fr_res fr with
    | None =>
        mkSummary (framesResponded summary) (filled summary) (skipped summary)
                  (errors summary + 1) (reports summary)
    | Some payload =>
        if negb (p_ok payload) then
          mkSummary (framesResponded summary) (filled summary)
                    (skipped summary) (errors summary + 1) (reports summary)
        else
          match report payload with
          | Some rep =>
              match stats rep with
              | Some st =>
                  mkSummary (framesResponded summary + 1)
                            (filled summary + orZero (st_filled st))
                            (skipped summary + orZero (st_skipped st))
                            (errors summary + orZero (st_errors st))
                            (reports summary ++ [rep])
              | None =>
                  mkSummary (framesResponded summary + 1) (filled summary)
                            (skipped summary) (errors summary)
                            (reports summary)
              end
          | None =>
              mkSummary (framesResponded summary + 1) (filled summary)
                        (skipped summary) (errors summary) (reports summary)
          end
    end.

Definition summarizeFillResults (frameResults : list FrameResult) : Summary :=
  fold_left summarizeFrame frameResults (mkSummary 0 0 0 0 []).


(* ===================================================================== *)
(** ** Sample documents *)
(* ===================================================================== *)

Definition noAttributes : Attr -> JsVal := fun _ => JsNull.

Definition zeroRect : DOMRect := mkRect 0%float 0%float 0%float 0%float.

(** An element without labels or geometry; as an input it is in the Text
    state. *)
Definition plainElement (tag : string) (attrs : Attr -> JsVal) : Element :=
  mkElement (JsStr (js tag)) attrs [] [] None None zeroRect NoContainer
            true (fun _ => None)
            (if str_eqb (js tag) (js "INPUT") then stripNewlines else fun s => s)
            [].

Definition withOptions (el : Element) (opts : list OptionEl) (v : JsString)
  : Element :=
  mkElement (tagName el) (getAttribute el) v opts
    (labelFor el) (parentLabel el) (rect el) (nearLabels el)
    (protoValueSetter el) (writeError el) (sanitize el) (trace el).

Definition withGeometry (el : Element) (r : DOMRect) (ls : LabelLookup)
  : Element :=
  mkElement (tagName el) (getAttribute el) (value el) (options el)
    (labelFor el) (parentLabel el) r ls
    (protoValueSetter el) (writeError el) (sanitize el) (trace el).

Definition withParentLabel (el : Element) (t : JsVal) : Element :=
  mkElement (tagName el) (getAttribute el) (value el) (options el)
    (labelFor el) (Some t) (rect el) (nearLabels el)
    (protoValueSetter el) (writeError el) (sanitize el) (trace el).

(** [<select><option>United States</option><option>Canada</option></select>] *)
Definition countrySelect : Element :=
  withOptions (plainElement "SELECT" noAttributes)
    [mkOption (js "United States") (js "United States");
     mkOption (js "Canada") (js "Canada")]
    (js "United States").

(** [<select><option value="TR">Republic of Turkey</option></select>] *)
Definition turkeySelect : Element :=
  withOptions (plainElement "SELECT" noAttributes)
    [mkOption (js "TR") (js "Republic of Turkey")] (js "TR").

(** [<select><option value="a">Republic of Turkey</option>
    <option value="b">Turkey</option></select>] *)
Definition republicSelect : Element :=
  withOptions (plainElement "SELECT" noAttributes)
    [mkOption (js "a") (js "Republic of Turkey");
     mkOption (js "b") (js "Turkey")] (js "a").

(** [<select><option value="x">Canada</option>
    <option value="canada">Other</option></select>] *)
Definition codedSelect : Element :=
  withOptions (plainElement "SELECT" noAttributes)
    [mkOption (js "x") (js "Canada");
     mkOption (js "canada") (js "Other")] (js "x").

(** [<input>] inside [<label>Name <input></label>] *)
Definition nameLabelled : Element :=
  withParentLabel (plainElement "INPUT" noAttributes) (JsStr (js "Name")).

(** [<input autocomplete="constructor">] *)
Definition constructorInput : Element :=
  plainElement "INPUT"
    (fun a => match a with
              | A_autocomplete => JsStr (js "constructor")
              | _ => JsNull
              end).

(** [<input type="file">]: the host refuses every non-empty value. *)
Definition fileInput : Element :=
  mkElement (JsStr (js "INPUT"))
    (fun a => match a with A_type => JsStr (js "file") | _ => JsNull end)
    [] [] None None zeroRect NoContainer true
    (fun v => if truthy v
              then Some (mkError (js "InvalidStateError")
                                 (js "This input element accepts a filename"))
              else None)
    (fun _ => [])
    [].

(** [<input type="color" value="#336699">] *)
Definition colorInput : Element :=
  mkElement (JsStr (js "INPUT"))
    (fun a => match a with A_type => JsStr (js "color") | _ => JsNull end)
    (js "#336699") [] None None zeroRect NoContainer true
    (fun _ => None) sanitizeColor [].

(** An input at (100, 300) and a short label whose bottom edge is 200 units
    above it and whose right edge is 50 units to the right of its left
    edge. *)
Definition farLabel : LabelEl :=
  mkLabel (JsStr (js "Name"))
          (mkRect 80%float 100%float 100%float 150%float).

Definition farLabelledInput : Element :=
  withGeometry (plainElement "INPUT" noAttributes)
    (mkRect 300%float 100%float 320%float 400%float)
    (Labels [farLabel]).

(** The same input with the label 200 units above and 200 units to the
    left. *)
Definition remoteLabel : LabelEl :=
  mkLabel (JsStr (js "Name"))
          (mkRect 80%float (-150)%float 100%float (-100)%float).

Definition remoteLabelledInput : Element :=
  withGeometry (plainElement "INPUT" noAttributes)
    (mkRect 300%float 100%float 320%float 400%float)
    (Labels [remoteLabel]).

(** [{ fullName: "Ada" }] and [{ fullName: "Ada King Lovelace" }] *)
Definition monoRaw : RawProfile :=
  mkRaw JsUndefined JsUndefined (JsStr (js "Ada")) JsUndefined JsUndefined
        JsUndefined JsUndefined JsUndefined JsUndefined JsUndefined
        JsUndefined JsUndefined JsUndefined JsUndefined JsUndefined
        JsUndefined JsUndefined JsUndefined JsUndefined.

Definition fullRaw : RawProfile :=
  mkRaw JsUndefined JsNull (JsStr (js " Ada  King Lovelace ")) JsUndefined
        JsUndefined
        JsUndefined JsUndefined JsUndefined JsUndefined JsUndefined
        JsUndefined JsUndefined JsUndefined JsUndefined JsUndefined
        JsUndefined JsUndefined JsUndefined JsUndefined.

(* ===================================================================== *)
(** ** Vocabulary of the specification *)
(* ===================================================================== *)

(** The tag kind of an element, as every helper reads it. *)
Definition tagKind (el : Element) : JsString :=
  toLowerCase (orEmpty (tagName el)).

(** The declared sub-kind of an input: its [type] attribute, [text] when
    there is none. *)
Definition declaredType (el : Element) : JsString :=
  toLowerCase (if truthy (orEmpty (getAttribute el A_type))
               then orEmpty (getAttribute el A_type) else js "text").

Definition excludedTypes : list JsString :=
  map js ["password"; "hidden"; "file"; "submit"; "button"; "reset";
          "checkbox"; "radio"]%string.

(** [o] is the first option of [opts] that passes the test [p]. *)
Definition firstMatch (p : OptionEl -> bool) (opts : list OptionEl)
  (o : OptionEl) : Prop :=
  exists pre post,
    opts = pre ++ o :: post /\ p o = true /\ forall x, In x pre -> p x = false.

Definition noMatch (p : OptionEl -> bool) (opts : list OptionEl) : Prop :=
  forall x, In x opts -> p x = false.

(** [p] occurs in [s] as a substring. *)
Definition occursIn (p s : JsString) : Prop := exists a b, s = a ++ p ++ b.

(** [o] is the first element of [l] that has the property [P]. *)
Definition firstWith {A : Type} (P : A -> Prop) (l : list A) (o : A) : Prop :=
  exists pre post, l = pre ++ o :: post /\ P o /\ forall x, In x pre -> ~ P x.


(** What one call of [add] appends. *)
Definition signalOf (s : JsVal) (w : Z) (src : Source) : list Signal :=
  if truthy (safeStr s) then [mkSignal (safeStr s) w src] else [].


(** The first unit of a string, if any, is no white space. *)
Definition headOk (s : JsString) : bool :=
  match s with
  | [] => true
  | c :: _ => negb (isWs c)
  end.

Definition noWs (s : JsString) : bool := forallb (fun c => negb (isWs c)) s.

(** What the proofs need of the lower case of one unit. *)
Definition lowerOk (c : CodeUnit) : bool :=
  forallb (fun u => str_eqb (lowerUnit u) [u]) (lowerUnit c)
  && (isWs c || noWs (lowerUnit c))
  && truthy (lowerUnit c).

(** The tokens of a string: non-empty and free of white space. *)
Definition token (t : JsString) : Prop := t <> [] /\ noWs t = true.

(** A profile that the coercion step leaves as it is. *)
Definition canonical (p : Profile) : Prop := coerceProfile (asRaw p) = p.

(** The nineteen fields of a profile. *)
Definition allFields (p : Profile) : list JsString :=
  [firstName p; lastName p; fullName p; email p; phone p; addressLine p;
   city p; state p; postalCode p; country p; linkedin p; github p;
   website p; dateOfBirth p; summary p; coverLetter p; graduationYear p;
   experienceYears p; salaryExpectation p].

(** The words of a name. *)
Definition words (s : JsString) : list JsString :=
  filterBoolean (split_ws s).

(** [{ firstName: " Mary Ann " }] and [{ lastName: "van Gogh" }] *)
Definition maryAnnRaw : RawProfile :=
  mkRaw (JsStr (js " Mary Ann ")) JsUndefined JsUndefined JsUndefined
        JsUndefined
        JsUndefined JsUndefined JsUndefined JsUndefined JsUndefined
        JsUndefined JsUndefined JsUndefined JsUndefined JsUndefined
        JsUndefined JsUndefined JsUndefined JsUndefined.

Definition vanGoghRaw : RawProfile :=
  mkRaw JsNull (JsStr (js "van Gogh")) JsUndefined JsUndefined JsUndefined
        JsUndefined JsUndefined JsUndefined JsUndefined JsUndefined
        JsUndefined JsUndefined JsUndefined JsUndefined JsUndefined
        JsUndefined JsUndefined JsUndefined JsUndefined.

(** The units a token is made of: letters, digits, "+" and "-". *)
Definition tokenChar (c : CodeUnit) : bool :=
  isLetter c || isNumber c || (c =? 43)%N || (c =? 45)%N.

(** The weight of a signal, by its source. *)
Definition weightOf (src : Source) : Z :=
  match src with
  | SrcPlaceholder => 4
  | SrcAriaLabel => 5
  | SrcName | SrcId => 3
  | SrcAutocomplete => 7
  | SrcDataTestid | SrcDataTest | SrcDataQa => 2
  | SrcLabelFor | SrcLabelWrap => 9
  | SrcNearLabel => 6
  end.

(** The place of a source in the order in which signals are collected. *)
Definition sourceRank (src : Source) : nat :=
  match src with
  | SrcPlaceholder => 0
  | SrcAriaLabel => 1
  | SrcName => 2
  | SrcId => 3
  | SrcAutocomplete => 4
  | SrcDataTestid => 5
  | SrcDataTest => 6
  | SrcDataQa => 7
  | SrcLabelFor => 8
  | SrcLabelWrap => 9
  | SrcNearLabel => 10
  end.

Definition wellFormedSignal (s : Signal) : Prop :=
  text s <> [] /\ trim (text s) = text s /\ weight s = weightOf (source s).

(** Signals collected from the sources of rank under [k]. *)
Definition signalsUpTo (k : nat) (l : list Signal) : Prop :=
  Forall wellFormedSignal l
  /\ NoDup (map source l)
  /\ Forall (fun s => (sourceRank (source s) < k)%nat) l
  /\ (List.length l <= k)%nat.

(** The points a reason announces. *)
Definition points (r : Reason) : Z :=
  match r with
  | RAutocomplete _ => 30
  | RAutocompleteMismatch _ => -8
  | RType _ bonus => bonus
  | RSignal _ local w => local * w
  | RPattern bonus => bonus
  | RSearchLike => -10
  end.

Definition totalPoints (rs : list Reason) : Z :=
  fold_right (fun r z => points r + z) 0 rs.

(** The score is the total of the reasons. *)
Definition balanced (acc : ScoreResult) : Prop :=
  score acc = totalPoints (reasons acc).

(** [<input autocomplete="Family-Name">] *)
Definition familyNameInput : Element :=
  plainElement "INPUT"
    (fun a => match a with
              | A_autocomplete => JsStr (js "Family-Name")
              | _ => JsNull
              end).

(** An element with every text it carries in lower case: its tag name, its
    attributes and the texts of its labels. *)
Definition lowerVal (v : JsVal) : JsVal :=
  match v with
  | JsStr s => JsStr (toLowerCase s)
  | _ => v
  end.

Definition lowerLabel (l : LabelEl) : LabelEl :=
  mkLabel (lowerVal (l_innerText l)) (l_rect l).

Definition lowerLookup (k : LabelLookup) : LabelLookup :=
  match k with
  | Labels ls => Labels (map lowerLabel ls)
  | NoContainer => NoContainer
  | LookupThrows => LookupThrows
  end.

Definition lowerCased (el : Element) : Element :=
  mkElement (lowerVal (tagName el)) (fun a => lowerVal (getAttribute el a))
    (value el) (options el)
    (option_map lowerVal (labelFor el)) (option_map lowerVal (parentLabel el))
    (rect el) (lowerLookup (nearLabels el))
    (protoValueSetter el) (writeError el) (sanitize el) (trace el).

Definition lowerSignal (s : Signal) : Signal :=
  mkSignal (toLowerCase (text s)) (weight s) (source s).

Definition lowerCandidate (c : LabelCandidate) : LabelCandidate :=
  mkCandidate (toLowerCase (c_text c)) (c_dist c).

(** Two elements of which what the scorer reads (tag name, attributes and
    label texts) has the same lower-cased form, that of [toLowerCase]. *)
Definition sameLowerCased (el1 el2 : Element) : Prop :=
  lowerVal (tagName el1) = lowerVal (tagName el2)
  /\ (forall a, lowerVal (getAttribute el1 a) = lowerVal (getAttribute el2 a))
  /\ option_map lowerVal (labelFor el1) = option_map lowerVal (labelFor el2)
  /\ option_map lowerVal (parentLabel el1)
     = option_map lowerVal (parentLabel el2)
  /\ rect el1 = rect el2
  /\ lowerLookup (nearLabels el1) = lowerLookup (nearLabels el2).

Definition wsLowerOk (c : CodeUnit) : bool :=
  negb (isWs c) || str_eqb (lowerUnit c) [c].

(** [<label>t <input></label>] *)
Definition labelledInput (t : string) : Element :=
  withParentLabel (plainElement "INPUT" noAttributes) (JsStr (js t)).

(** [<INPUT TYPE="EMAIL" NAME="E-Mail" PLACEHOLDER="Your E-MAIL">] and the
    same in lower case *)
Definition shoutedEmailInput : Element :=
  plainElement "INPUT"
    (fun a => match a with
              | A_type => JsStr (js "EMAIL")
              | A_name => JsStr (js "E-Mail")
              | A_placeholder => JsStr (js "Your E-MAIL")
              | _ => JsNull
              end).

Definition quietEmailInput : Element :=
  plainElement "input"
    (fun a => match a with
              | A_type => JsStr (js "email")
              | A_name => JsStr (js "e-mail")
              | A_placeholder => JsStr (js "your e-mail")
              | _ => JsNull
              end).

(** [<select><option value=""></option><option>United States</option>
    <option>Canada</option></select>] *)
Definition placeholderSelect : Element :=
  withOptions (plainElement "SELECT" noAttributes)
    [mkOption [] [];
     mkOption (js "United States") (js "United States");
     mkOption (js "Canada") (js "Canada")]
    [].

(** [siteRules?.mode || "neutral"] *)
Definition effectiveMode (siteRules : option SiteRules) : JsString :=
  match siteRules with
  | Some sr =>
      if truthy (orEmpty (mode sr)) then orEmpty (mode sr) else js "neutral"
  | None => js "neutral"
  end.

(** [siteRules?.domains?.[domain]] *)
Definition entryOf (domain : JsString) (siteRules : option SiteRules)
  : option DomainEntry :=
  match siteRules with
  | Some sr =>
      match domains sr with
      | Some ds => getOwn ds domain
      | None => None
      end
  | None => None
  end.

Definition knownModes : list JsString :=
  [js "neutral"; js "whitelist"; js "blacklist"].

(** Rules in whitelist mode with a page allowed for three field types. *)
Definition sampleRules : SiteRules :=
  mkRules (JsStr (js "whitelist"))
    (Some [(js "jobs.example.com",
            mkEntry (JsStr (js "whitelist"))
                    (Some [js "email"; js "phone"; js "fullName"]) None None);
           (js "ads.example.net",
            mkEntry (JsStr (js "blacklist")) None None None)]).

Definition plusSummary (a b : Summary) : Summary :=
  mkSummary (framesResponded a + framesResponded b) (filled a + filled b)
            (skipped a + skipped b) (errors a + errors b)
            (reports a ++ reports b).



(** Three frames: one filled two fields, one did not answer, one answered
    without counts. *)
Definition sampleFrames : list FrameResult :=
  [mkFrameResult true 0
     (Some (mkPayload true
              (Some (mkReport (Some (mkStats (Some 2) (Some 1) None))
                              [js "email"; js "phone"]))));
   mkFrameResult false 4 None;
   mkFrameResult true 7 (Some (mkPayload true None))].

(* ===================================================================== *)
(** ** Strings: basic facts *)
(* ===================================================================== *)

Lemma str_eqb_spec (a b : JsString) : reflect (a = b) (str_eqb a b).
Proof.
  revert b; induction a as [|x a IH]; intros [|y b]; simpl;
    try (constructor; congruence).
  destruct (N.eqb_spec x y) as [->|Hxy]; simpl.
  - destruct (IH b) as [->|Hab]; constructor; congruence.
  - constructor; congruence.
Qed.

Lemma str_eqb_eq (a b : JsString) : str_eqb a b = true <-> a = b.
Proof. destruct (str_eqb_spec a b); split; congruence. Qed.

Lemma str_eqb_refl (a : JsString) : str_eqb a a = true.
Proof. apply str_eqb_eq; reflexivity. Qed.

Lemma str_eqb_neq (a b : JsString) : str_eqb a b = false <-> a <> b.
Proof. destruct (str_eqb_spec a b); split; congruence. Qed.

Lemma truthy_false (s : JsString) : truthy s = false <-> s = [].
Proof. destruct s; simpl; split; congruence. Qed.

Lemma truthy_true (s : JsString) : truthy s = true <-> s <> [].
Proof. destruct s; simpl; split; congruence. Qed.

(* ===================================================================== *)
(** ** Strings: trimming, pieces and case *)
(* ===================================================================== *)

Lemma trimStart_headOk (s : JsString) : headOk s = true -> trimStart s = s.
Proof.
  destruct s as [|c r]; simpl; [reflexivity|].
  destruct (isWs c); [discriminate | reflexivity].
Qed.

Lemma headOk_trimStart (s : JsString) : headOk (trimStart s) = true.
Proof.
  induction s as [|c r IH]; simpl; [reflexivity|].
  destruct (isWs c) eqn:E; [exact IH|]. simpl. now rewrite E.
Qed.

Lemma headOk_app (l m : JsString) :
  headOk (l ++ m) = match l with [] => headOk m | _ :: _ => headOk l end.
Proof. destruct l; reflexivity. Qed.

Lemma headOk_rev_trimStart (x : JsString) :
  headOk (rev x) = true -> headOk (rev (trimStart x)) = true.
Proof.
  induction x as [|c r IH]; simpl; [auto|].
  intros H. destruct (isWs c) eqn:E; [|exact H].
  apply IH. rewrite headOk_app in H.
  destruct (rev r); [reflexivity | exact H].
Qed.

Lemma trim_id (s : JsString) :
  headOk s = true -> headOk (rev s) = true -> trim s = s.
Proof.
  intros H1 H2. unfold trim, trimEnd.
  now rewrite (trimStart_headOk s H1), (trimStart_headOk (rev s) H2),
    rev_involutive.
Qed.

Lemma trim_edges (s : JsString) :
  headOk (trim s) = true /\ headOk (rev (trim s)) = true.
Proof.
  unfold trim, trimEnd. split.
  - apply headOk_rev_trimStart. rewrite rev_involutive.
    apply headOk_trimStart.
  - rewrite rev_involutive. apply headOk_trimStart.
Qed.

Lemma trim_idem (s : JsString) : trim (trim s) = trim s.
Proof. destruct (trim_edges s). now apply trim_id. Qed.

Lemma safeStr_trimmed (v : JsVal) : trim (safeStr v) = safeStr v.
Proof. destruct v; simpl; try reflexivity. apply trim_idem. Qed.

Lemma safeStr_edges (v : JsVal) :
  headOk (safeStr v) = true /\ headOk (rev (safeStr v)) = true.
Proof. destruct v; simpl; auto using trim_edges. Qed.

Lemma noWs_rev (s : JsString) : noWs (rev s) = noWs s.
Proof.
  unfold noWs. induction s as [|c r IH]; simpl; [reflexivity|].
  rewrite forallb_app, IH. simpl. rewrite andb_true_r. apply andb_comm.
Qed.

Lemma noWs_headOk (s : JsString) : noWs s = true -> headOk s = true.
Proof.
  destruct s as [|c r]; simpl; [reflexivity|].
  intros H. now apply andb_true_iff in H.
Qed.

Lemma noWs_trim (s : JsString) : noWs s = true -> trim s = s.
Proof.
  intros H. apply trim_id; apply noWs_headOk; [|rewrite noWs_rev]; exact H.
Qed.

(** The pieces of a split hold no white space. *)
Lemma split_ws_from_noWs (s cur : JsString) (skipping : bool) :
  noWs cur = true ->
  Forall (fun t => noWs t = true) (split_ws_from cur skipping s).
Proof.
  revert cur skipping.
  induction s as [|c r IH]; intros cur skipping Hcur; simpl.
  - constructor; [now rewrite noWs_rev | constructor].
  - destruct (isWs c) eqn:E.
    + destruct skipping; [now apply IH|].
      constructor; [now rewrite noWs_rev | now apply IH].
    + apply IH. simpl. now rewrite E.
Qed.

Lemma tokens_of_split (s : JsString) :
  Forall token (filterBoolean (split_ws s)).
Proof.
  apply Forall_forall. intros t Ht. apply filter_In in Ht.
  destruct Ht as [Hin Htr]. split; [now apply truthy_true|].
  pose proof (split_ws_from_noWs s [] false eq_refl) as H.
  rewrite Forall_forall in H. now apply H.
Qed.

Lemma join_nonempty (sep : JsString) (parts : list JsString) :
  parts <> [] -> Forall token parts -> join sep parts <> [].
Proof.
  destruct parts as [|p rest]; [congruence|].
  intros _ H. inversion H as [|? ? [Hp _] _]; subst.
  simpl. destruct rest; [exact Hp|].
  destruct p; [congruence | discriminate].
Qed.

Lemma join_edges (sep : JsString) (parts : list JsString) :
  Forall token parts ->
  headOk (join sep parts) = true /\ headOk (rev (join sep parts)) = true.
Proof.
  induction parts as [|p rest IH]; intros H; [now split|].
  inversion H as [|? ? [Hp Hws] Hrest]; subst.
  destruct rest as [|q rest].
  - simpl. split; [now apply noWs_headOk|].
    apply noWs_headOk. now rewrite noWs_rev.
  - change (join sep (p :: q :: rest)) with (p ++ sep ++ join sep (q :: rest)).
    split.
    + rewrite headOk_app. destruct p; [congruence|]. now apply noWs_headOk.
    + rewrite !rev_app_distr, <- app_assoc, headOk_app.
      pose proof (join_nonempty sep (q :: rest)) as Hne.
      destruct (IH Hrest) as [_ Hlast].
      destruct (rev (join sep (q :: rest))) eqn:Er; [|exact Hlast].
      exfalso. apply Hne; [discriminate | exact Hrest |].
      apply (f_equal (@rev CodeUnit)) in Er.
      now rewrite rev_involutive in Er.
Qed.

Lemma lowerUnit_big (c : CodeUnit) : (384 <= c)%N -> lowerUnit c = [c].
Proof.
  intros H. unfold lowerUnit.
  repeat match goal with
         | |- context [N.leb ?a ?b] => destruct (N.leb_spec a b); try lia
         | |- context [N.eqb ?a ?b] => destruct (N.eqb_spec a b); try lia
         end; reflexivity.
Qed.

Lemma isWs_big_lower (c : CodeUnit) :
  (384 <= c)%N -> lowerOk c = true.
Proof.
  intros H. unfold lowerOk, noWs. rewrite (lowerUnit_big c H). simpl.
  rewrite (lowerUnit_big c H), str_eqb_refl. simpl.
  now destruct (isWs c).
Qed.

Lemma lowerOk_small :
  forallb lowerOk (map N.of_nat (seq 0 384)) = true.
Proof. vm_compute. reflexivity. Qed.

Lemma lowerOk_all (c : CodeUnit) : lowerOk c = true.
Proof.
  destruct (N.lt_ge_cases c 384) as [Hlt|Hge]; [|now apply isWs_big_lower].
  pose proof lowerOk_small as H. rewrite forallb_forall in H. apply H.
  replace c with (N.of_nat (N.to_nat c)) by apply N2Nat.id.
  apply in_map, in_seq. lia.
Qed.

Lemma lowerUnit_fixed (c u : CodeUnit) :
  In u (lowerUnit c) -> lowerUnit u = [u].
Proof.
  intros Hu. pose proof (lowerOk_all c) as H. unfold lowerOk in H.
  apply andb_true_iff in H. destruct H as [H _].
  apply andb_true_iff in H. destruct H as [H _].
  rewrite forallb_forall in H. apply str_eqb_eq. now apply H.
Qed.

Lemma lowerUnit_noWs (c : CodeUnit) :
  isWs c = false -> noWs (lowerUnit c) = true /\ lowerUnit c <> [].
Proof.
  intros Hc. pose proof (lowerOk_all c) as H. unfold lowerOk in H.
  apply andb_true_iff in H. destruct H as [H Ht].
  apply andb_true_iff in H. destruct H as [_ H].
  rewrite Hc in H. simpl in H. split; [exact H | now apply truthy_true].
Qed.

Lemma flat_map_fixed (f : CodeUnit -> JsString) (l : JsString) :
  (forall u, In u l -> f u = [u]) -> flat_map f l = l.
Proof.
  induction l as [|u l IH]; intros H; simpl; [reflexivity|].
  rewrite (H u (or_introl eq_refl)), IH; [reflexivity|].
  intros v Hv. apply H. now right.
Qed.

Lemma toLowerCase_idem (s : JsString) :
  toLowerCase (toLowerCase s) = toLowerCase s.
Proof.
  unfold toLowerCase. induction s as [|c r IH]; simpl; [reflexivity|].
  rewrite flat_map_app, IH. f_equal.
  apply flat_map_fixed. intros u Hu. exact (lowerUnit_fixed c u Hu).
Qed.

Lemma rev_flat_map (f : CodeUnit -> JsString) (s : JsString) :
  rev (flat_map f s) = flat_map (fun c => rev (f c)) (rev s).
Proof.
  induction s as [|c r IH]; simpl; [reflexivity|].
  rewrite rev_app_distr, IH, flat_map_app. simpl. now rewrite app_nil_r.
Qed.

Lemma headOk_flat_map (f : CodeUnit -> JsString) (s : JsString) :
  (forall c, isWs c = false -> noWs (f c) = true /\ f c <> []) ->
  headOk s = true -> headOk (flat_map f s) = true.
Proof.
  intros Hf. destruct s as [|c r]; simpl; [reflexivity|].
  intros Hc. apply negb_true_iff in Hc. destruct (Hf c Hc) as [Hws Hne].
  rewrite headOk_app. destruct (f c) eqn:E; [congruence|].
  now apply noWs_headOk.
Qed.

Lemma toLowerCase_edges (s : JsString) :
  headOk s = true -> headOk (rev s) = true ->
  headOk (toLowerCase s) = true /\ headOk (rev (toLowerCase s)) = true.
Proof.
  intros H1 H2. unfold toLowerCase. split.
  - apply headOk_flat_map; [exact lowerUnit_noWs | exact H1].
  - rewrite rev_flat_map. apply headOk_flat_map; [|exact H2].
    intros c Hc. destruct (lowerUnit_noWs c Hc) as [Hws Hne]. split.
    + now rewrite noWs_rev.
    + intros E. apply Hne. apply (f_equal (@rev CodeUnit)) in E.
      now rewrite rev_involutive in E.
Qed.

(* ===================================================================== *)
(** ** The normaliser: phone numbers and addresses *)
(* ===================================================================== *)

Lemma isDigit_not_ws (c : CodeUnit) : isDigit c = true -> isWs c = false.
Proof.
  unfold isDigit. intros H. apply andb_true_iff in H. destruct H as [H1 H2].
  apply N.leb_le in H1, H2. unfold isWs. cbn [existsb].
  repeat match goal with
         | |- context [N.leb ?a ?b] => destruct (N.leb_spec a b); try lia
         | |- context [N.eqb ?a ?b] => destruct (N.eqb_spec a b); try lia
         end; reflexivity.
Qed.

Lemma filter_isDigit_noWs (s : JsString) : noWs (filter isDigit s) = true.
Proof.
  induction s as [|c r IH]; simpl; [reflexivity|].
  destruct (isDigit c) eqn:E; [|exact IH].
  simpl. now rewrite (isDigit_not_ws c E), IH.
Qed.

Lemma filter_idem (f : CodeUnit -> bool) (s : JsString) :
  filter f (filter f s) = filter f s.
Proof.
  induction s as [|c r IH]; simpl; [reflexivity|].
  destruct (f c) eqn:E; [|exact IH]. simpl. now rewrite E, IH.
Qed.

Lemma startsWith_plus_digits (s : JsString) :
  startsWith (filter isDigit s) (js "+") = false.
Proof.
  induction s as [|c r IH]; [reflexivity|]. simpl filter.
  destruct (isDigit c) eqn:E; [|exact IH].
  change (js "+") with [43%N]. cbn [startsWith].
  unfold isDigit in E. apply andb_true_iff in E. destruct E as [E _].
  apply N.leb_le in E. destruct (N.eqb_spec 43 c); [lia | reflexivity].
Qed.

Lemma normalizePhone_idem (v : JsVal) :
  normalizePhone (JsStr (normalizePhone v)) = normalizePhone v.
Proof.
  unfold normalizePhone at 2 3. cbv zeta.
  destruct (truthy (safeStr v)); cbn [negb]; [|reflexivity].
  set (d := filter isDigit (safeStr v)).
  assert (Hd : noWs d = true) by apply filter_isDigit_noWs.
  destruct (startsWith (trim (safeStr v)) (js "+")).
  - change (js "+") with [43%N]. cbn [app].
    assert (Hws : noWs (43%N :: d) = true) by (simpl; exact Hd).
    unfold normalizePhone. cbn [safeStr].
    rewrite !(noWs_trim _ Hws). cbn [truthy negb].
    change (js "+") with [43%N]. cbn [startsWith].
    rewrite N.eqb_refl. cbn [andb].
    change (filter isDigit (43%N :: d)) with (filter isDigit d).
    unfold d. now rewrite filter_idem.
  - unfold normalizePhone. cbn [safeStr].
    rewrite !(noWs_trim _ Hd).
    destruct (truthy d) eqn:Et; cbn [negb].
    + unfold d at 1.
      rewrite startsWith_plus_digits. unfold d. now rewrite filter_idem.
    + apply truthy_false in Et. now rewrite Et.
Qed.

Lemma hasScheme_https (u : JsString) : hasScheme (js "https://" ++ u) = true.
Proof.
  unfold hasScheme. rewrite map_app.
  change (map asciiLower (js "https://"))
    with [104; 116; 116; 112; 115; 58; 47; 47]%N.
  change (js "https://") with [104; 116; 116; 112; 115; 58; 47; 47]%N.
  change (js "http://") with [104; 116; 116; 112; 58; 47; 47]%N.
  reflexivity.
Qed.

Lemma normalizeUrl_idem (v : JsVal) :
  normalizeUrl (JsStr (normalizeUrl v)) = normalizeUrl v.
Proof.
  unfold normalizeUrl at 2 3. cbv zeta.
  destruct (truthy (safeStr v)) eqn:Ht; cbn [negb]; [|reflexivity].
  destruct (negb (hasScheme (safeStr v)) && looksLikeDomain (safeStr v))
    eqn:Hc.
  - set (out := js "https://" ++ safeStr v).
    assert (Hout : trim out = out).
    { destruct (safeStr_edges v) as [_ Hlast]. apply trim_id.
      - reflexivity.
      - unfold out. rewrite rev_app_distr, headOk_app.
        destruct (rev (safeStr v)) eqn:Er; [|exact Hlast].
        apply (f_equal (@rev CodeUnit)) in Er.
        rewrite rev_involutive in Er. rewrite Er in Ht. discriminate. }
    unfold normalizeUrl. cbn [safeStr]. rewrite Hout.
    unfold out at 1 2. rewrite hasScheme_https. reflexivity.
  - unfold normalizeUrl. cbn [safeStr]. rewrite safeStr_trimmed, Ht, Hc.
    reflexivity.
Qed.

(* ===================================================================== *)
(** ** The normaliser: canonical profiles *)
(* ===================================================================== *)

Lemma email_fixed (v : JsVal) :
  toLowerCase (trim (toLowerCase (safeStr v))) = toLowerCase (safeStr v).
Proof.
  destruct (safeStr_edges v) as [H1 H2].
  destruct (toLowerCase_edges _ H1 H2) as [H3 H4].
  rewrite (trim_id _ H3 H4). apply toLowerCase_idem.
Qed.

Lemma canonical_coerce (raw : RawProfile) : canonical (coerceProfile raw).
Proof.
  unfold canonical, coerceProfile, asRaw.
  cbn - [trim toLowerCase normalizePhone normalizeUrl].
  rewrite !safeStr_trimmed, email_fixed, normalizePhone_idem,
    !normalizeUrl_idem.
  reflexivity.
Qed.

Lemma coerce_set_fullName (p : Profile) (v : JsString) :
  coerceProfile (asRaw (set_fullName p v))
  = set_fullName (coerceProfile (asRaw p)) (trim v).
Proof. destruct p. reflexivity. Qed.

Lemma canonical_set_fullName (p : Profile) (v : JsString) :
  canonical p -> trim v = v -> canonical (set_fullName p v).
Proof.
  unfold canonical. intros H Hv. now rewrite coerce_set_fullName, H, Hv.
Qed.

Lemma coerce_set_firstName (p : Profile) (v : JsString) :
  coerceProfile (asRaw (set_firstName p v))
  = set_firstName (coerceProfile (asRaw p)) (trim v).
Proof. destruct p. reflexivity. Qed.

Lemma canonical_set_firstName (p : Profile) (v : JsString) :
  canonical p -> trim v = v -> canonical (set_firstName p v).
Proof.
  unfold canonical. intros H Hv. now rewrite coerce_set_firstName, H, Hv.
Qed.

Lemma coerce_set_lastName (p : Profile) (v : JsString) :
  coerceProfile (asRaw (set_lastName p v))
  = set_lastName (coerceProfile (asRaw p)) (trim v).
Proof. destruct p. reflexivity. Qed.

Lemma canonical_set_lastName (p : Profile) (v : JsString) :
  canonical p -> trim v = v -> canonical (set_lastName p v).
Proof.
  unfold canonical. intros H Hv. now rewrite coerce_set_lastName, H, Hv.
Qed.

Lemma canonical_deriveFullName (p : Profile) :
  canonical p -> canonical (deriveFullName p).
Proof.
  intros H. unfold deriveFullName.
  destruct (truthy (fullName p)); cbn [negb]; [exact H|].
  apply canonical_set_fullName; [exact H | apply trim_idem].
Qed.

Lemma token_hd (parts : list JsString) :
  Forall token parts -> trim (hd [] parts) = hd [] parts.
Proof.
  intros H. apply noWs_trim. destruct parts as [|a rest]; [reflexivity|].
  inversion H as [|? ? [_ Ha] _]. exact Ha.
Qed.

Lemma token_tl_join (parts : list JsString) :
  Forall token parts ->
  trim (join (js " ") (tl parts)) = join (js " ") (tl parts).
Proof.
  intros H.
  assert (Htl : Forall token (tl parts)).
  { destruct parts; [constructor | now inversion H]. }
  destruct (join_edges (js " ") (tl parts) Htl). now apply trim_id.
Qed.

Lemma canonical_deriveFirstLast (p : Profile) :
  canonical p -> canonical (deriveFirstLast p).
Proof.
  intros H. unfold deriveFirstLast.
  destruct ((negb (truthy (firstName p)) || negb (truthy (lastName p)))
            && truthy (fullName p)); [|exact H].
  pose proof (tokens_of_split (fullName p)) as Htok.
  destruct (2 <=? List.length (filterBoolean (split_ws (fullName p))))%nat;
    [|exact H].
  assert (H1 : canonical
                 (if negb (truthy (firstName p))
                  then set_firstName p
                         (hd [] (filterBoolean (split_ws (fullName p))))
                  else p)).
  { destruct (negb (truthy (firstName p))); [|exact H].
    apply canonical_set_firstName; [exact H | now apply token_hd]. }
  destruct (negb (truthy (lastName _))); [|exact H1].
  apply canonical_set_lastName; [exact H1 | now apply token_tl_join].
Qed.

Lemma canonical_normalizeProfile (raw : RawProfile) :
  canonical (normalizeProfile raw).
Proof.
  unfold normalizeProfile.
  apply canonical_deriveFirstLast, canonical_deriveFullName, canonical_coerce.
Qed.

(* ===================================================================== *)
(** ** The normaliser: names *)
(* ===================================================================== *)

Lemma set_fullName_same (p : Profile) : set_fullName p (fullName p) = p.
Proof. destruct p. reflexivity. Qed.

(** The first derivation leaves its own result as it is. *)
Lemma deriveFullName_fixed (p : Profile) :
  deriveFullName (deriveFullName p) = deriveFullName p.
Proof.
  unfold deriveFullName at 2 3.
  destruct (truthy (fullName p)) eqn:Hn; cbn [negb].
  - unfold deriveFullName. now rewrite Hn.
  - set (t := trim (join (js " ") (filterBoolean [firstName p; lastName p]))).
    unfold deriveFullName.
    destruct p; cbn [set_fullName fullName firstName lastName] in *.
    destruct (truthy t) eqn:Ht; cbn [negb]; [reflexivity|].
    cbn [set_fullName fullName firstName lastName email phone addressLine
         city state postalCode country linkedin github website dateOfBirth
         summary coverLetter graduationYear experienceYears
         salaryExpectation].
    reflexivity.
Qed.

(** Both derivations leave a profile with all three names as it is. *)
Lemma derive_named (p : Profile) :
  firstName p <> [] -> lastName p <> [] -> fullName p <> [] ->
  deriveFirstLast (deriveFullName p) = p.
Proof.
  intros Hf Hl Hn. apply truthy_true in Hf, Hl, Hn.
  unfold deriveFullName. rewrite Hn. cbn [negb].
  unfold deriveFirstLast. now rewrite Hf, Hl.
Qed.

(** What the second derivation does, on the three names. *)
Lemma deriveFirstLast_names (p : Profile) :
  let parts := filterBoolean (split_ws (fullName p)) in
  let derives :=
    (negb (truthy (firstName p)) || negb (truthy (lastName p)))
    && truthy (fullName p) && (2 <=? List.length parts)%nat in
  fullName (deriveFirstLast p) = fullName p
  /\ firstName (deriveFirstLast p)
     = (if derives && negb (truthy (firstName p))
        then hd [] parts else firstName p)
  /\ lastName (deriveFirstLast p)
     = (if derives && negb (truthy (lastName p))
        then join (js " ") (tl parts) else lastName p).
Proof.
  destruct p as [f l n e ph ad ci st pc co li gi we db su cl gy ey sa].
  cbv zeta. unfold deriveFirstLast.
  cbn [firstName lastName fullName].
  set (parts := filterBoolean (split_ws n)).
  destruct (truthy f) eqn:Ef, (truthy l) eqn:El, (truthy n),
    (2 <=? List.length parts)%nat;
    cbn [negb andb orb set_firstName set_lastName firstName lastName fullName];
    rewrite ?Ef, ?El;
    cbn [negb andb orb set_firstName set_lastName firstName lastName fullName];
    auto.
Qed.

Lemma deriveFirstLast_unchanged (p : Profile) :
  ((negb (truthy (firstName p)) || negb (truthy (lastName p)))
   && truthy (fullName p)
   && (2 <=? List.length (filterBoolean (split_ws (fullName p))))%nat) = false ->
  deriveFirstLast p = p.
Proof.
  unfold deriveFirstLast. intros H.
  destruct ((negb (truthy (firstName p)) || negb (truthy (lastName p)))
            && truthy (fullName p)); [|reflexivity].
  cbn [andb] in H. now rewrite H.
Qed.

(** The derivations leave the result of the derivations as it is. *)
Lemma derive_fixed (p : Profile) :
  let q := deriveFirstLast (deriveFullName p) in
  deriveFirstLast (deriveFullName q) = q.
Proof.
  intros q. unfold q. set (p1 := deriveFullName p).
  destruct ((negb (truthy (firstName p1)) || negb (truthy (lastName p1)))
            && truthy (fullName p1)
            && (2 <=? List.length
                        (filterBoolean (split_ws (fullName p1))))%nat)
    eqn:Hd.
  - destruct (deriveFirstLast_names p1) as (Hn & Hf & Hl).
    rewrite Hd in Hf, Hl. cbn [andb] in Hf, Hl.
    apply andb_true_iff in Hd. destruct Hd as [Hd Hlen].
    apply andb_true_iff in Hd. destruct Hd as [_ Hfull].
    pose proof (tokens_of_split (fullName p1)) as Htok.
    destruct (filterBoolean (split_ws (fullName p1))) as [|a [|b rest]] eqn:Ep;
      try discriminate Hlen.
    apply derive_named.
    + rewrite Hf. destruct (truthy (firstName p1)) eqn:E; cbn [negb].
      * now apply truthy_true.
      * inversion Htok as [|? ? [Ha _] _]. exact Ha.
    + rewrite Hl. destruct (truthy (lastName p1)) eqn:E; cbn [negb].
      * now apply truthy_true.
      * apply join_nonempty; [discriminate|]. now inversion Htok.
    + rewrite Hn. now apply truthy_true.
  - rewrite (deriveFirstLast_unchanged p1 Hd). unfold p1.
    rewrite deriveFullName_fixed. fold p1.
    apply (deriveFirstLast_unchanged p1 Hd).
Qed.

(** C9: normalising a profile that [normalizeProfile] returned gives that
    profile back, field by field: the trimmed fields, the lower-cased email,
    the phone number, the three addresses and the derived names. *)
Theorem C9_normalizeProfile_idempotent (raw : RawProfile) :
  normalizeProfile (asRaw (normalizeProfile raw)) = normalizeProfile raw.
Proof.
  unfold normalizeProfile at 1.
  rewrite (canonical_normalizeProfile raw : coerceProfile _ = _).
  unfold normalizeProfile. apply derive_fixed.
Qed.

(* ===================================================================== *)
(** ** The normaliser: splitting the full name *)
(* ===================================================================== *)

(** C3, at the one-token full name "Ada": the first name is empty, the full
    name is not, its first token is "Ada", and the first name stays empty. *)
Lemma C3_single_token_not_split :
  safeStr (raw_firstName monoRaw) = []
  /\ safeStr (raw_fullName monoRaw) = js "Ada"
  /\ filterBoolean (split_ws (safeStr (raw_fullName monoRaw))) = [js "Ada"]
  /\ firstName (normalizeProfile monoRaw) = []
  /\ lastName (normalizeProfile monoRaw) = [].
Proof. vm_compute. repeat split. Qed.

(** C3, as the code has it: when the full name is not empty and the first or
    the last name is, the full name is kept; if it has two tokens or more, an
    empty first name becomes its first token and an empty last name becomes
    its other tokens joined by single spaces; if it has one token, the first
    and the last name stay as given; a first or last name that is not empty
    is never replaced. *)
Theorem C3_split_full_name (raw : RawProfile) :
  let f := safeStr (raw_firstName raw) in
  let l := safeStr (raw_lastName raw) in
  let n := safeStr (raw_fullName raw) in
  let parts := filterBoolean (split_ws n) in
  let out := normalizeProfile raw in
  n <> [] -> f = [] \/ l = [] ->
  fullName out = n
  /\ ((2 <= List.length parts)%nat ->
      firstName out = (if truthy f then f else hd [] parts)
      /\ lastName out = (if truthy l then l else join (js " ") (tl parts)))
  /\ ((List.length parts < 2)%nat -> firstName out = f /\ lastName out = l)
  /\ (f <> [] -> firstName out = f)
  /\ (l <> [] -> lastName out = l).
Proof.
  intros f l n parts out Hn Hfl.
  assert (Hp1 : deriveFullName (coerceProfile raw) = coerceProfile raw).
  { unfold deriveFullName. cbn [coerceProfile fullName]. fold n.
    apply truthy_true in Hn. now rewrite Hn. }
  destruct (deriveFirstLast_names (coerceProfile raw)) as (H1 & H2 & H3).
  cbn [coerceProfile fullName firstName lastName] in H1, H2, H3.
  fold f l n parts in H2, H3. fold n in H1.
  unfold out, normalizeProfile. rewrite Hp1, H1, H2, H3.
  apply truthy_true in Hn. rewrite Hn.
  assert (Hor : negb (truthy f) || negb (truthy l) = true).
  { destruct Hfl as [-> | ->]; cbn; [reflexivity | apply orb_true_r]. }
  rewrite Hor. cbn [andb].
  split; [reflexivity|].
  split.
  { intros Hlen. apply Nat.leb_le in Hlen. rewrite Hlen. cbn [andb].
    destruct (truthy f), (truthy l); auto. }
  split.
  { intros Hlen. apply Nat.leb_gt in Hlen. rewrite Hlen. auto. }
  split.
  - intros Hf. apply truthy_true in Hf. rewrite Hf, andb_false_r. reflexivity.
  - intros Hl. apply truthy_true in Hl. rewrite Hl, andb_false_r. reflexivity.
Qed.

Lemma C3_split_full_name_witness :
  fullName (normalizeProfile fullRaw) = js "Ada  King Lovelace"
  /\ firstName (normalizeProfile fullRaw) = js "Ada"
  /\ lastName (normalizeProfile fullRaw) = js "King Lovelace".
Proof.
  assert (Hn : safeStr (raw_fullName fullRaw) <> [])
    by (vm_compute; discriminate).
  assert (Hfl : safeStr (raw_firstName fullRaw) = []
                \/ safeStr (raw_lastName fullRaw) = [])
    by (left; reflexivity).
  destruct (C3_split_full_name fullRaw Hn Hfl) as (H1 & H2 & _).
  split; [exact H1|]. apply H2. vm_compute. lia.
Defined.

(* ===================================================================== *)
(** ** The canonical profile of the end-to-end example *)
(* ===================================================================== *)

(** Nothing is fabricated from an empty profile. *)
Lemma normalizeProfile_empty :
  normalizeProfile emptyRaw
  = mkProfile [] [] [] [] [] [] [] [] [] [] [] [] [] [] [] [] [] [] [].
Proof. reflexivity. Qed.

(** C8: normalising [{firstName: "Ada", lastName: "Lovelace",
    email: "ADA@X.COM"}] gives first name "Ada", last name "Lovelace", the
    derived full name "Ada Lovelace", the lower-cased email "ada@x.com", and
    the empty string in every other field. *)
Theorem C8_normalize_ada :
  normalizeProfile adaRaw =
  mkProfile (js "Ada") (js "Lovelace") (js "Ada Lovelace") (js "ada@x.com")
            [] [] [] [] [] [] [] [] [] [] [] [] [] [] [].
Proof. vm_compute. reflexivity. Qed.

(* ===================================================================== *)
(** ** Fillability *)
(* ===================================================================== *)

Lemma isFillableElement_input (el : Element) :
  tagKind el = js "input" ->
  isFillableElement (Some el)
  = negb (existsb (str_eqb (declaredType el)) excludedTypes).
Proof.
  intros Htag. unfold isFillableElement.
  fold (tagKind el). fold (declaredType el). rewrite Htag.
  change (str_eqb (js "input") (js "textarea")) with false.
  change (str_eqb (js "input") (js "select")) with false.
  change (str_eqb (js "input") (js "input")) with true.
  cbn [orb negb].
  unfold excludedTypes. cbn [map existsb].
  repeat match goal with
         | |- context [str_eqb (declaredType el) ?k] =>
             destruct (str_eqb (declaredType el) k); cbn [orb negb];
             try reflexivity
         end.
Qed.

(** C7: an input whose declared sub-kind is password, hidden, file, submit,
    button, reset, checkbox or radio is rejected by the fillability filter;
    text areas, discrete selectors and inputs of every other sub-kind are
    accepted. *)
Theorem C7_fillability (el : Element) :
  (tagKind el = js "textarea" \/ tagKind el = js "select" ->
   isFillableElement (Some el) = true)
  /\ (tagKind el = js "input" ->
      (In (declaredType el) excludedTypes ->
       isFillableElement (Some el) = false)
      /\ (~ In (declaredType el) excludedTypes ->
          isFillableElement (Some el) = true)).
Proof.
  split.
  - intros H. unfold isFillableElement. fold (tagKind el).
    destruct H as [-> | ->]; reflexivity.
  - intros Htag. rewrite (isFillableElement_input el Htag). split.
    + intros Hin.
      assert (existsb (str_eqb (declaredType el)) excludedTypes = true) as ->.
      { apply existsb_exists. exists (declaredType el). split; [exact Hin|].
        apply str_eqb_refl. }
      reflexivity.
    + intros Hnin.
      destruct (existsb (str_eqb (declaredType el)) excludedTypes) eqn:E;
        [|reflexivity].
      apply existsb_exists in E. destruct E as [k [Hk Heq]].
      apply str_eqb_eq in Heq. subst k. contradiction.
Qed.

Lemma C7_fillability_witness :
  isFillableElement (Some fileInput) = false
  /\ isFillableElement (Some nameLabelled) = true
  /\ isFillableElement (Some countrySelect) = true.
Proof.
  split; [|split].
  - apply (proj2 (C7_fillability fileInput)); [reflexivity|].
    vm_compute. tauto.
  - apply (proj2 (C7_fillability nameLabelled)); [reflexivity|].
    vm_compute. intros H.
    repeat (destruct H as [H|H]; [discriminate H|]). exact H.
  - apply (proj1 (C7_fillability countrySelect)). right. reflexivity.
Defined.

(* ===================================================================== *)
(** ** The nearest label *)
(* ===================================================================== *)

Lemma insertByDist_In (x y : LabelCandidate) (l : list LabelCandidate) :
  In x (insertByDist y l) <-> x = y \/ In x l.
Proof.
  induction l as [|z l IH]; simpl.
  - intuition.
  - destruct (distLe y z); simpl; rewrite ?IH; intuition.
Qed.

Lemma sortByDist_In (x : LabelCandidate) (l : list LabelCandidate) :
  In x (sortByDist l) <-> In x l.
Proof.
  induction l as [|y l IH]; simpl; [tauto|].
  rewrite insertByDist_In, IH. intuition.
Qed.

(** What the callback pushes is a label with text that sits above or to the
    left of the element, within the tolerance, and under the cap. *)
Lemma labelCandidate_In (er : DOMRect) (l : LabelEl) (c : LabelCandidate) :
  In c (labelCandidate er l) ->
  labelCandidate er l = [c]
  /\ c_text c = safeStr (l_innerText l)
  /\ c_text c <> []
  /\ (isAbove er (l_rect l) || isLeft er (l_rect l)) = true
  /\ PrimFloat.ltb (labelDist er (l_rect l)) 80%float = true.
Proof.
  unfold labelCandidate.
  destruct (truthy (safeStr (l_innerText l))) eqn:Ht; cbn [negb]; [|intros []].
  destruct (isAbove er (l_rect l) || isLeft er (l_rect l)); cbn [andb];
    [|intros []].
  destruct (PrimFloat.ltb (labelDist er (l_rect l)) 80) eqn:Hd; [|intros []].
  intros [<-|[]]. cbn [c_text].
  repeat split; try reflexivity. now apply truthy_true.
Qed.

Lemma findNearestLabelText_from_candidate (el : Element) (t : JsString) :
  findNearestLabelText el = t -> t <> [] ->
  exists ls l c,
    nearLabels el = Labels ls /\ In l ls
    /\ In c (labelCandidate (rect el) l) /\ c_text c = t.
Proof.
  unfold findNearestLabelText.
  destruct (nearLabels el) as [ls| |]; try congruence.
  destruct (sortByDist _) as [|c rest] eqn:Es; [congruence|].
  intros Ht _.
  assert (Hin : In c (flat_map (labelCandidate (rect el)) ls)).
  { apply sortByDist_In. rewrite Es. now left. }
  apply in_flat_map in Hin. destruct Hin as (l & Hl & Hc).
  exists ls, l, c. auto.
Qed.

(** The lesser of the two gaps is under the cap only if one of them is. *)
Lemma Math_min_under_cap (a b : float) :
  PrimFloat.ltb (Math_min a b) 80%float = true ->
  PrimFloat.ltb a 80%float = true \/ PrimFloat.ltb b 80%float = true.
Proof.
  unfold Math_min.
  destruct (PrimFloat.is_nan a); [now left|].
  destruct (PrimFloat.is_nan b); [now right|].
  destruct (PrimFloat.ltb b a); [now right|].
  destruct (PrimFloat.ltb a b); [now left|].
  destruct (PrimFloat.get_sign a); [now left | now right].
Qed.

(** C1, at a label 200 units above its input: the label is short and
    left-aligned with the input, so its right edge is 50 units from the left
    edge of the input, and it is returned as the near label. *)
Lemma C1_label_200_above_is_returned :
  nearLabels farLabelledInput = Labels [farLabel]
  /\ PrimFloat.sub (top (rect farLabelledInput)) (bottom (l_rect farLabel))
     = 200%float
  /\ findNearestLabelText farLabelledInput = js "Name"
  /\ In (mkSignal (js "Name") 6 SrcNearLabel)
        (getElementTextSignals farLabelledInput).
Proof. vm_compute. repeat split. now left. Qed.

(** C1, as the code has it: the text returned by the nearest-label search is
    the text of a label-like element of the container that was pushed as a
    candidate: one that sits above the element or to its left, within the
    8-unit tolerance, and whose distance (the lesser of the vertical and the
    horizontal gap) is under 80; and a label whose bottom edge is 200 units
    above the element is never pushed as a candidate when its horizontal gap
    is not under 80 either. *)
Theorem C1_near_label_is_qualified (el : Element) :
  (forall t : JsString,
     findNearestLabelText el = t -> t <> [] ->
     exists ls l,
       nearLabels el = Labels ls /\ In l ls
       /\ safeStr (l_innerText l) = t
       /\ labelCandidate (rect el) l <> []
       /\ (isAbove (rect el) (l_rect l) || isLeft (rect el) (l_rect l)) = true
       /\ PrimFloat.ltb (labelDist (rect el) (l_rect l)) 80%float = true)
  /\ (forall l : LabelEl,
        PrimFloat.sub (top (rect el)) (bottom (l_rect l)) = 200%float ->
        PrimFloat.ltb (horizontalDist (rect el) (l_rect l)) 80%float = false ->
        labelCandidate (rect el) l = []).
Proof.
  split.
  - intros t Ht Hne.
    destruct (findNearestLabelText_from_candidate el t Ht Hne)
      as (ls & l & c & Hls & Hl & Hc & Htext).
    destruct (labelCandidate_In _ _ _ Hc) as (Hone & Hct & _ & Hq & Hd).
    exists ls, l. repeat split; auto; congruence.
  - intros l Hv Hh. unfold labelCandidate.
    destruct (truthy (safeStr (l_innerText l))); cbn [negb]; [|reflexivity].
    destruct (PrimFloat.ltb (labelDist (rect el) (l_rect l)) 80) eqn:Hd;
      [|now rewrite andb_false_r].
    exfalso. apply Math_min_under_cap in Hd. destruct Hd as [Hd|Hd].
    + unfold verticalDist in Hd. rewrite Hv in Hd. vm_compute in Hd.
      discriminate.
    + congruence.
Qed.

Lemma C1_near_label_witness :
  labelCandidate (rect remoteLabelledInput) remoteLabel = []
  /\ exists ls l,
       nearLabels farLabelledInput = Labels ls /\ In l ls
       /\ safeStr (l_innerText l) = js "Name"
       /\ labelCandidate (rect farLabelledInput) l <> []
       /\ (isAbove (rect farLabelledInput) (l_rect l)
           || isLeft (rect farLabelledInput) (l_rect l)) = true
       /\ PrimFloat.ltb (labelDist (rect farLabelledInput) (l_rect l))
            80%float = true.
Proof.
  split.
  - apply (proj2 (C1_near_label_is_qualified remoteLabelledInput));
      vm_compute; reflexivity.
  - apply (proj1 (C1_near_label_is_qualified farLabelledInput) (js "Name")).
    + vm_compute. reflexivity.
    + vm_compute. discriminate.
Defined.

(* ===================================================================== *)
(** ** The scorer: autocomplete mapping *)
(* ===================================================================== *)

Lemma FieldType_eqb_eq (a b : FieldType) : FieldType_eqb a b = true <-> a = b.
Proof. destruct a, b; simpl; split; congruence. Qed.

(** For every autocomplete value that is not the name of a member of
    [Object.prototype], the autocomplete term is +30 on the mapped field
    type, -8 on a value mapped to another field type and 0 otherwise. *)
Lemma scoreAutocomplete_own_keys (el : Element) (ft : FieldType)
  (acc : ScoreResult) :
  let ac := toLowerCase (safeStr (getAttribute el A_autocomplete)) in
  existsb (str_eqb ac) OBJECT_PROTOTYPE_KEYS = false ->
  score (scoreAutocomplete el ft acc)
  = score acc
    + match ownProperty AUTOCOMPLETE_MAP ac with
      | Some mapped => if FieldType_eqb mapped ft then 30 else -8
      | None => 0
      end.
Proof.
  intros ac Hproto. unfold scoreAutocomplete. fold ac.
  destruct (truthy ac) eqn:Hac.
  - unfold autocompleteLookup. rewrite Hproto.
    destruct (ownProperty AUTOCOMPLETE_MAP ac) as [m|]; simpl; [|lia].
    destruct (FieldType_eqb m ft); simpl; lia.
  - apply truthy_false in Hac. rewrite Hac. simpl. lia.
Qed.

(** C5, at [<input autocomplete="constructor">]: the value is no key of the
    mapping table, and yet the autocomplete term of the score is -8 for every
    field type, since the property read finds [Object.prototype.constructor];
    nothing else contributes to the score of that element. *)
Theorem C5_inherited_key_penalised (ft : FieldType) :
  ownProperty AUTOCOMPLETE_MAP
    (toLowerCase (safeStr (getAttribute constructorInput A_autocomplete)))
  = None
  /\ score (scoreAutocomplete constructorInput ft (mkScore 0 [])) = -8
  /\ score (scoreFieldType constructorInput ft) = -8.
Proof. destruct ft; vm_compute; repeat split. Qed.

(* ===================================================================== *)
(** ** The scorer: the bare token "name" *)
(* ===================================================================== *)

Lemma add_signalOf (s : JsVal) (w : Z) (src : Source) (l : list Signal) :
  add s w src l = l ++ signalOf s w src.
Proof.
  unfold add, signalOf. destruct (truthy (safeStr s)); simpl;
    [reflexivity | now rewrite app_nil_r].
Qed.


Lemma signalOf_nonempty (s : JsVal) (w : Z) (src : Source) :
  safeStr s <> [] -> In (mkSignal (safeStr s) w src) (signalOf s w src).
Proof.
  intros H. unfold signalOf. apply truthy_true in H. rewrite H. now left.
Qed.




Lemma countSynonyms_step (ft : FieldType) (tokens : list JsString) (z : Z) :
  fold_left
    (fun local tok =>
       if existsb (str_eqb tok) (synonymTokens ft) then local + 3 else local)
    tokens z
  = z + countSynonyms ft tokens.
Proof.
  unfold countSynonyms. revert z.
  induction tokens as [|t ts IH]; intros z; simpl; [lia|].
  destruct (existsb (str_eqb t) (synonymTokens ft)).
  - rewrite (IH (z + 3)), (IH 3). lia.
  - apply IH.
Qed.


Lemma localScore_unambiguous (ft : FieldType) (tokens : list JsString) :
  existsb ambiguousNameToken tokens = false ->
  localScore ft tokens = countSynonyms ft tokens.
Proof.
  intros H. unfold localScore. rewrite H.
  destruct ft; simpl; reflexivity.
Qed.






(* ===================================================================== *)
(** ** The injector: discrete selectors *)
(* ===================================================================== *)

Lemma find_firstMatch (p : OptionEl -> bool) (opts : list OptionEl)
  (o : OptionEl) :
  firstMatch p opts o -> find p opts = Some o.
Proof.
  intros (pre & post & -> & Ho & Hpre).
  induction pre as [|x pre IH]; simpl.
  - now rewrite Ho.
  - rewrite (Hpre x (or_introl eq_refl)). apply IH.
    intros y Hy. apply Hpre. now right.
Qed.

Lemma find_noMatch (p : OptionEl -> bool) (opts : list OptionEl) :
  noMatch p opts -> find p opts = None.
Proof.
  intros H. induction opts as [|x opts IH]; simpl; [reflexivity|].
  rewrite (H x (or_introl eq_refl)). apply IH.
  intros y Hy. apply H. now right.
Qed.

Lemma find_Some_firstMatch (p : OptionEl -> bool) (opts : list OptionEl)
  (o : OptionEl) :
  find p opts = Some o -> firstMatch p opts o.
Proof.
  induction opts as [|x opts IH]; simpl; [discriminate|].
  destruct (p x) eqn:Hx.
  - intros [= ->]. exists [], opts. repeat split; auto. intros y [].
  - intros H. destruct (IH H) as (pre & post & -> & Ho & Hpre).
    exists (x :: pre), post. repeat split; auto.
    intros y [<-|Hy]; auto.
Qed.

Lemma find_None_noMatch (p : OptionEl -> bool) (opts : list OptionEl) :
  find p opts = None -> noMatch p opts.
Proof. intros H x Hx. exact (find_none p opts H x Hx). Qed.


(** The three tiers on any selector and any non-empty desired value. *)
Lemma setSelectValue_tiers (sel : Element) (desired : JsVal) :
  safeStr desired <> [] ->
  let d := normalizeForCompare (safeStr desired) in
  let opts := options sel in
  (forall o, firstMatch (valueMatches d) opts o ->
     setSelectValue sel desired
     = (selected ByValue (opt_value o), choose sel o))
  /\ (noMatch (valueMatches d) opts ->
      forall o, firstMatch (textMatches d) opts o ->
        setSelectValue sel desired
        = (selected ByText (opt_value o), choose sel o))
  /\ (noMatch (valueMatches d) opts -> noMatch (textMatches d) opts ->
      forall o, firstMatch (fuzzyMatches d) opts o ->
        setSelectValue sel desired
        = (selected ByFuzzy (opt_value o), choose sel o))
  /\ (noMatch (valueMatches d) opts -> noMatch (textMatches d) opts ->
      noMatch (fuzzyMatches d) opts ->
      setSelectValue sel desired = (failure (js "no option match"), sel)).
Proof.
  intros Hne d opts. apply truthy_true in Hne.
  unfold setSelectValue. rewrite Hne. cbn [negb]. fold d. fold opts.
  repeat split.
  - intros o Ho. now rewrite (find_firstMatch _ _ _ Ho).
  - intros Hv o Ho.
    now rewrite (find_noMatch _ _ Hv), (find_firstMatch _ _ _ Ho).
  - intros Hv Ht o Ho.
    now rewrite (find_noMatch _ _ Hv), (find_noMatch _ _ Ht),
      (find_firstMatch _ _ _ Ho).
  - intros Hv Ht Hf.
    now rewrite (find_noMatch _ _ Hv), (find_noMatch _ _ Ht),
      (find_noMatch _ _ Hf).
Qed.

(** A successful selection names its tier and the option it chose, which is
    the first one passing the test of that tier, no earlier tier matching. *)
Lemma setSelectValue_selected (sel : Element) (desired : JsVal)
  (r : Result) (sel' : Element) :
  setSelectValue sel desired = (r, sel') -> ok r = true ->
  let d := normalizeForCompare (safeStr desired) in
  exists m o,
    r = selected m (opt_value o) /\ sel' = choose sel o
    /\ match m with
       | ByValue => firstMatch (valueMatches d) (options sel) o
       | ByText => noMatch (valueMatches d) (options sel)
                   /\ firstMatch (textMatches d) (options sel) o
       | ByFuzzy => noMatch (valueMatches d) (options sel)
                    /\ noMatch (textMatches d) (options sel)
                    /\ firstMatch (fuzzyMatches d) (options sel) o
       end.
Proof.
  unfold setSelectValue.
  destruct (truthy (safeStr desired)); cbn [negb].
  2:{ intros [= <- <-]. discriminate. }
  destruct (find (valueMatches _) _) as [o|] eqn:Ev.
  { intros [= <- <-] _. exists ByValue, o.
    split; [reflexivity|]. split; [reflexivity|].
    now apply find_Some_firstMatch. }
  destruct (find (textMatches _) _) as [o|] eqn:Et.
  { intros [= <- <-] _. exists ByText, o.
    split; [reflexivity|]. split; [reflexivity|].
    split; [now apply find_None_noMatch | now apply find_Some_firstMatch]. }
  destruct (find (fuzzyMatches _) _) as [o|] eqn:Ef.
  { intros [= <- <-] _. exists ByFuzzy, o.
    split; [reflexivity|]. split; [reflexivity|].
    split; [now apply find_None_noMatch|].
    split; [now apply find_None_noMatch | now apply find_Some_firstMatch]. }
  intros [= <- <-]. discriminate.
Qed.

Lemma startsWith_prefix (p s : JsString) :
  startsWith s p = true <-> exists b, s = p ++ b.
Proof.
  revert s. induction p as [|x p IH]; intros s; simpl.
  - split; [intros _; now exists s | reflexivity].
  - destruct s as [|y s].
    + split; [discriminate | intros [b Hb]; discriminate].
    + rewrite andb_true_iff, IH, N.eqb_eq. split.
      * intros [-> [b ->]]. now exists b.
      * intros [b [= -> ->]]. split; [reflexivity | now exists b].
Qed.

Lemma includes_occursIn (s p : JsString) :
  includes s p = true <-> occursIn p s.
Proof.
  induction s as [|y s IH]; simpl.
  - rewrite orb_false_r, startsWith_prefix. split.
    + intros [b ->]. now exists [], b.
    + intros ([|z a] & b & H); [now exists b | discriminate].
  - rewrite orb_true_iff, IH, startsWith_prefix. split.
    + intros [[b ->] | (a & b & ->)].
      * now exists [], b.
      * now exists (y :: a), b.
    + intros ([|z a] & b & H).
      * left. now exists b.
      * right. injection H as _ ->. now exists a, b.
Qed.

Lemma firstWith_firstMatch (p : OptionEl -> bool) (P : OptionEl -> Prop)
  (opts : list OptionEl) (o : OptionEl) :
  (forall x, p x = true <-> P x) ->
  firstWith P opts o -> firstMatch p opts o.
Proof.
  intros HP (pre & post & -> & Ho & Hpre). exists pre, post.
  split; [reflexivity|]. split; [now apply HP|].
  intros x Hx. destruct (p x) eqn:E; [|reflexivity].
  destruct (Hpre x Hx). now apply HP.
Qed.

Lemma noneWith_noMatch (p : OptionEl -> bool) (P : OptionEl -> Prop)
  (opts : list OptionEl) :
  (forall x, p x = true <-> P x) ->
  (forall x, In x opts -> ~ P x) -> noMatch p opts.
Proof.
  intros HP H x Hx. destruct (p x) eqn:E; [|reflexivity].
  destruct (H x Hx). now apply HP.
Qed.

(** C4: with a non-empty desired value [desired], normalised to [d], a
    selector is set to the first option whose normalised value is [d]; when
    no option has that value, to the first whose normalised text is [d];
    when none has that either, to the first whose normalised text occurs in
    [d] or has [d] occurring in it; the result names the tier and the value
    chosen, and the selector then holds that value, after one assignment and
    one "change" event; when no tier matches, the call fails with "no option
    match" and the selector is returned as it was.  On the options "United
    States" and "Canada" the desired value "usa" fails and changes nothing;
    "Turkey" selects an option reading "Republic of Turkey" by
    containment. *)
Theorem C4_select_tiers :
  (forall (sel : Element) (desired : JsVal),
     safeStr desired <> [] ->
     let d := normalizeForCompare (safeStr desired) in
     let byValue := fun o => normalizeForCompare (opt_value o) = d in
     let byText := fun o => normalizeForCompare (opt_textContent o) = d in
     let byContainment := fun o =>
       occursIn d (normalizeForCompare (opt_textContent o))
       \/ occursIn (normalizeForCompare (opt_textContent o)) d in
     let none := fun P : OptionEl -> Prop =>
       forall x, In x (options sel) -> ~ P x in
     let picks := fun (tier : MatchTier) (o : OptionEl) =>
       fst (setSelectValue sel desired)
       = mkResult true None (Some (opt_value o)) (Some tier) None
       /\ value (snd (setSelectValue sel desired)) = opt_value o
       /\ options (snd (setSelectValue sel desired)) = options sel
       /\ trace (snd (setSelectValue sel desired))
          = trace sel ++ [EffAssign (opt_value o); EffDispatch EvChange] in
     (forall o, firstWith byValue (options sel) o -> picks ByValue o)
     /\ (none byValue ->
         forall o, firstWith byText (options sel) o -> picks ByText o)
     /\ (none byValue -> none byText ->
         forall o, firstWith byContainment (options sel) o ->
           picks ByFuzzy o)
     /\ (none byValue -> none byText -> none byContainment ->
         setSelectValue sel desired
         = (mkResult false None None None (Some (js "no option match")),
            sel)))
  /\ (forall sel : Element,
        options sel
        = [mkOption (js "United States") (js "United States");
           mkOption (js "Canada") (js "Canada")] ->
        setSelectValue sel (JsStr (js "usa"))
        = (mkResult false None None None (Some (js "no option match")), sel))
  /\ (forall (sel : Element) (v : JsString),
        options sel = [mkOption v (js "Republic of Turkey")] ->
        normalizeForCompare v <> js "turkey" ->
        fst (setSelectValue sel (JsStr (js "Turkey")))
        = mkResult true None (Some v) (Some ByFuzzy) None
        /\ value (snd (setSelectValue sel (JsStr (js "Turkey")))) = v
        /\ trace (snd (setSelectValue sel (JsStr (js "Turkey"))))
           = trace sel ++ [EffAssign v; EffDispatch EvChange]).
Proof.
  split; [|split].
  - intros sel desired Hne d byValue byText byContainment none picks.
    destruct (setSelectValue_tiers sel desired Hne)
      as (Hv & Ht & Hf & Hn). fold d in Hv, Ht, Hf, Hn.
    assert (Pv : forall x, valueMatches d x = true <-> byValue x)
      by (intros x; unfold valueMatches; apply str_eqb_eq).
    assert (Pt : forall x, textMatches d x = true <-> byText x)
      by (intros x; unfold textMatches; apply str_eqb_eq).
    assert (Pf : forall x, fuzzyMatches d x = true <-> byContainment x).
    { intros x. unfold fuzzyMatches, byContainment. cbv zeta.
      now rewrite orb_true_iff, !includes_occursIn. }
    assert (Hpick : forall tier o,
               setSelectValue sel desired
               = (selected tier (opt_value o), choose sel o) ->
               picks tier o).
    { intros tier o E. unfold picks. rewrite E. cbn [fst snd].
      split; [reflexivity|]. split; [reflexivity|]. split; [reflexivity|].
      cbn. now rewrite <- app_assoc. }
    split; [|split; [|split]].
    + intros o Ho. apply Hpick, Hv.
      exact (firstWith_firstMatch _ _ _ _ Pv Ho).
    + intros Nv o Ho. apply Hpick, Ht.
      * exact (noneWith_noMatch _ _ _ Pv Nv).
      * exact (firstWith_firstMatch _ _ _ _ Pt Ho).
    + intros Nv Nt o Ho. apply Hpick, Hf.
      * exact (noneWith_noMatch _ _ _ Pv Nv).
      * exact (noneWith_noMatch _ _ _ Pt Nt).
      * exact (firstWith_firstMatch _ _ _ _ Pf Ho).
    + intros Nv Nt Nf. apply Hn.
      * exact (noneWith_noMatch _ _ _ Pv Nv).
      * exact (noneWith_noMatch _ _ _ Pt Nt).
      * exact (noneWith_noMatch _ _ _ Pf Nf).
  - intros sel Hopts.
    apply (setSelectValue_tiers sel (JsStr (js "usa"))).
    + vm_compute. discriminate.
    + rewrite Hopts. apply find_None_noMatch. vm_compute. reflexivity.
    + rewrite Hopts. apply find_None_noMatch. vm_compute. reflexivity.
    + rewrite Hopts. apply find_None_noMatch. vm_compute. reflexivity.
  - intros sel v Hopts Hv.
    assert (Hne : safeStr (JsStr (js "Turkey")) <> [])
      by (vm_compute; discriminate).
    destruct (setSelectValue_tiers sel (JsStr (js "Turkey")) Hne)
      as (_ & _ & Hfuzzy & _).
    rewrite (Hfuzzy) with (o := mkOption v (js "Republic of Turkey")).
    + cbn [fst snd]. split; [reflexivity|]. split; [reflexivity|].
      cbn. now rewrite <- app_assoc.
    + rewrite Hopts. intros x [<-|[]]. unfold valueMatches. cbn [opt_value].
      apply str_eqb_neq. exact Hv.
    + rewrite Hopts. intros x [<-|[]]. vm_compute. reflexivity.
    + rewrite Hopts. exists [], []. repeat split.
      intros x [].
Qed.

(** The order of the tiers at work: "Turkey" selects the second option,
    whose text is "Turkey", not the first, whose text only contains it; and
    " CANADA " selects the second option, whose value is "canada", not the
    first, whose text is "Canada". *)
Lemma C4_select_tiers_witness :
  (fst (setSelectValue republicSelect (JsStr (js "Turkey")))
   = mkResult true None (Some (js "b")) (Some ByText) None
   /\ value (snd (setSelectValue republicSelect (JsStr (js "Turkey"))))
      = js "b"
   /\ options (snd (setSelectValue republicSelect (JsStr (js "Turkey"))))
      = options republicSelect
   /\ trace (snd (setSelectValue republicSelect (JsStr (js "Turkey"))))
      = trace republicSelect ++ [EffAssign (js "b"); EffDispatch EvChange])
  /\ (fst (setSelectValue codedSelect (JsStr (js " CANADA ")))
      = mkResult true None (Some (js "canada")) (Some ByValue) None
      /\ value (snd (setSelectValue codedSelect (JsStr (js " CANADA "))))
         = js "canada"
      /\ options (snd (setSelectValue codedSelect (JsStr (js " CANADA "))))
         = options codedSelect
      /\ trace (snd (setSelectValue codedSelect (JsStr (js " CANADA "))))
         = trace codedSelect
           ++ [EffAssign (js "canada"); EffDispatch EvChange])
  /\ setSelectValue countrySelect (JsStr (js "usa"))
     = (mkResult false None None None (Some (js "no option match")),
        countrySelect)
  /\ fst (setSelectValue turkeySelect (JsStr (js "Turkey")))
     = mkResult true None (Some (js "TR")) (Some ByFuzzy) None.
Proof.
  split; [|split; [|split]].
  - refine (proj1 (proj2 (proj1 C4_select_tiers republicSelect
                            (JsStr (js "Turkey")) _)) _
              (mkOption (js "b") (js "Turkey")) _).
    + vm_compute. discriminate.
    + intros x [<-|[<-|[]]]; vm_compute; discriminate.
    + exists [mkOption (js "a") (js "Republic of Turkey")], [].
      split; [reflexivity|]. split; [reflexivity|].
      intros x [<-|[]]. vm_compute. discriminate.
  - refine (proj1 (proj1 C4_select_tiers codedSelect
                     (JsStr (js " CANADA ")) _)
              (mkOption (js "canada") (js "Other")) _).
    + vm_compute. discriminate.
    + exists [mkOption (js "x") (js "Canada")], [].
      split; [reflexivity|]. split; [reflexivity|].
      intros x [<-|[]]. vm_compute. discriminate.
  - apply (proj1 (proj2 C4_select_tiers)). reflexivity.
  - apply (proj2 (proj2 C4_select_tiers) turkeySelect (js "TR"));
      [reflexivity | vm_compute; discriminate].
Defined.

(* ===================================================================== *)
(** ** The injector: [setNativeValue] *)
(* ===================================================================== *)

Lemma setNativeValue_select (el : Element) (v : JsVal) :
  tagKind el = js "select" ->
  setNativeValue (Some el) v
  = (fst (setSelectValue el v), Some (snd (setSelectValue el v))).
Proof.
  intros Htag. unfold setNativeValue, setNativeValue_try.
  fold (tagKind el). rewrite Htag.
  change (str_eqb (js "select") (js "select")) with true. cbn iota.
  now destruct (setSelectValue el v).
Qed.

Lemma setNativeValue_text (el : Element) (v : JsVal) :
  tagKind el <> js "select" ->
  setNativeValue (Some el) v
  = match writeValue el (safeStr v) with
    | Normal el1 =>
        (written (value el) (safeStr v),
         Some (dispatchEvent EvChange (dispatchEvent EvInput el1)))
    | Throw e => (failure (errorToString e), Some el)
    end.
Proof.
  intros Htag. unfold setNativeValue, setNativeValue_try.
  fold (tagKind el). apply str_eqb_neq in Htag. rewrite Htag.
  now destruct (writeValue el (safeStr v)).
Qed.

Lemma writeValue_Normal (el el1 : Element) (val : JsString) :
  writeValue el val = Normal el1 ->
  value el1 = sanitize el val
  /\ exists w, (w = EffNativeSet val \/ w = EffAssign val)
               /\ trace el1 = trace el ++ [w].
Proof.
  unfold writeValue. destruct (writeError el val); [discriminate|].
  destruct (protoValueSetter el); intros [= <-]; cbn; eauto.
Qed.

(** C2, at a selector: the write succeeds and selects "Canada" where
    "United States" was selected, and the result has the new value and the
    tier that matched, but no previous value. *)
Lemma C2_select_result_lacks_previous_value :
  ok (fst (setNativeValue (Some countrySelect) (JsStr (js "Canada")))) = true
  /\ from (fst (setNativeValue (Some countrySelect) (JsStr (js "Canada"))))
     = None
  /\ to (fst (setNativeValue (Some countrySelect) (JsStr (js "Canada"))))
     = Some (js "Canada")
  /\ value countrySelect = js "United States"
  /\ option_map value
       (snd (setNativeValue (Some countrySelect) (JsStr (js "Canada"))))
     = Some (js "Canada").
Proof. vm_compute. repeat split. Qed.

(** C2, as the code has it: [setNativeValue] returns a result on every
    element, [null] included, and on every value; when its body throws, the
    result is a failure carrying the description of the exception and the
    element is as it was; a failure always carries a description; a
    successful write to a text-like element returns the value the element
    had before and the string that was written, the desired value trimmed,
    of which the element then holds what the host keeps; a successful write
    to a selector returns the matching tier and the new value of the
    selector, and no previous value. *)
Theorem C2_setNativeValue_total (el : option Element) (v : JsVal) :
  exists (r : Result) (el' : option Element),
    setNativeValue el v = (r, el')
    /\ (forall e, setNativeValue_try el v = Throw e ->
          r = mkResult false None None None (Some (errorToString e))
          /\ el' = el)
    /\ (ok r = false -> exists d, error r = Some d)
    /\ (ok r = true ->
        exists e0 e1,
          el = Some e0 /\ el' = Some e1
          /\ (tagKind e0 <> js "select" ->
              from r = Some (value e0) /\ to r = Some (safeStr v)
              /\ value e1 = sanitize e0 (safeStr v))
          /\ (tagKind e0 = js "select" ->
              from r = None /\ to r = Some (value e1)
              /\ exists m, matched r = Some m)).
Proof.
  destruct el as [e0|].
  2:{ exists (failure (errorToString nullTypeError)), None.
      split; [reflexivity|].
      split; [intros err [= <-]; split; reflexivity|].
      split; [intros _; eexists; reflexivity | discriminate]. }
  destruct (str_eqb_spec (tagKind e0) (js "select")) as [Hsel|Hsel].
  - exists (fst (setSelectValue e0 v)), (Some (snd (setSelectValue e0 v))).
    split; [now apply setNativeValue_select|].
    split.
    { intros err. unfold setNativeValue_try. fold (tagKind e0). rewrite Hsel.
      change (str_eqb (js "select") (js "select")) with true. discriminate. }
    destruct (setSelectValue e0 v) as [r e1] eqn:Eset. cbn [fst snd].
    split.
    + intros Hok. unfold setSelectValue in Eset.
      destruct (truthy (safeStr v)); cbn [negb] in Eset.
      * repeat match type of Eset with
               | context [find ?p ?l] => destruct (find p l)
               end;
          injection Eset as <- <-;
          first [discriminate Hok | eexists; reflexivity].
      * injection Eset as <- <-. eexists; reflexivity.
    + intros Hok.
      destruct (setSelectValue_selected e0 v r e1 Eset Hok)
        as (m & o & -> & -> & _).
      exists e0, (choose e0 o).
      split; [reflexivity|]. split; [reflexivity|].
      split; [intros Hne; contradiction|].
      intros _. split; [reflexivity|]. split; [reflexivity|].
      exists m; reflexivity.
  - rewrite (setNativeValue_text e0 v Hsel).
    assert (Htry : setNativeValue_try (Some e0) v
                   = match writeValue e0 (safeStr v) with
                     | Normal el1 =>
                         Normal (written (value e0) (safeStr v),
                                 dispatchEvent EvChange
                                   (dispatchEvent EvInput el1))
                     | Throw e => Throw e
                     end).
    { unfold setNativeValue_try. fold (tagKind e0).
      apply str_eqb_neq in Hsel. rewrite Hsel.
      now destruct (writeValue e0 (safeStr v)). }
    rewrite Htry.
    destruct (writeValue e0 (safeStr v)) as [el1|e] eqn:Ew.
    + assert (Hval : value el1 = sanitize e0 (safeStr v)).
      { unfold writeValue in Ew.
        destruct (writeError e0 (safeStr v)); [discriminate|].
        destruct (protoValueSetter e0); injection Ew as <-; reflexivity. }
      eexists; eexists. split; [reflexivity|].
      split; [discriminate|]. split; [discriminate|].
      intros _. exists e0, (dispatchEvent EvChange (dispatchEvent EvInput el1)).
      split; [reflexivity|]. split; [reflexivity|].
      split; [|intros Hs; contradiction].
      intros _. split; [reflexivity|]. split; [reflexivity|].
      cbn. exact Hval.
    + eexists; eexists. split; [reflexivity|].
      split; [intros err [= <-]; split; reflexivity|].
      split; [intros _; eexists; reflexivity | discriminate].
Qed.

(** The two ways the body of [setNativeValue] throws in this model. *)
Lemma setNativeValue_null (v : JsVal) :
  setNativeValue None v = (failure (errorToString nullTypeError), None).
Proof. reflexivity. Qed.

Lemma setNativeValue_refused :
  setNativeValue (Some fileInput) (JsStr (js "cv.pdf"))
  = (failure
       (js "InvalidStateError: This input element accepts a filename"),
     Some fileInput).
Proof. vm_compute. reflexivity. Qed.




(* ===================================================================== *)
(** ** More on the normaliser *)
(* ===================================================================== *)

(** A phone number comes out as digits, after one "+" exactly when the
    trimmed input begins with "+"; the digits are those of the input, in
    their order, and everything else is dropped. *)
Theorem normalizePhone_digits (v : JsVal) :
  exists d : JsString,
    forallb isDigit d = true
    /\ d = filter isDigit (safeStr v)
    /\ normalizePhone v
       = (if startsWith (safeStr v) (js "+") then js "+" ++ d else d)
    /\ startsWith (normalizePhone v) (js "+")
       = startsWith (safeStr v) (js "+").
Proof.
  exists (filter isDigit (safeStr v)).
  split.
  { apply forallb_forall. intros c Hc. now apply filter_In in Hc. }
  split; [reflexivity|].
  unfold normalizePhone. rewrite safeStr_trimmed.
  destruct (truthy (safeStr v)) eqn:Ht; cbn [negb].
  - destruct (startsWith (safeStr v) (js "+")) eqn:Hp.
    + split; reflexivity.
    + split; [reflexivity | apply startsWith_plus_digits].
  - apply truthy_false in Ht. rewrite Ht. split; reflexivity.
Qed.

Lemma normalizePhone_trimmed (v : JsVal) :
  trim (normalizePhone v) = normalizePhone v.
Proof.
  apply noWs_trim. unfold normalizePhone.
  destruct (truthy (safeStr v)); cbn [negb]; [|reflexivity].
  destruct (startsWith (trim (safeStr v)) (js "+")).
  - change (js "+") with [43%N]. cbn [app noWs forallb].
    apply filter_isDigit_noWs.
  - apply filter_isDigit_noWs.
Qed.

Lemma normalizeUrl_cases (v : JsVal) :
  normalizeUrl v
  = if negb (hasScheme (safeStr v)) && looksLikeDomain (safeStr v)
    then js "https://" ++ safeStr v else safeStr v.
Proof.
  unfold normalizeUrl.
  destruct (truthy (safeStr v)) eqn:Ht; cbn [negb]; [reflexivity|].
  apply truthy_false in Ht. rewrite Ht. reflexivity.
Qed.

Lemma normalizeUrl_trimmed (v : JsVal) :
  trim (normalizeUrl v) = normalizeUrl v.
Proof.
  rewrite normalizeUrl_cases.
  destruct (negb (hasScheme (safeStr v)) && looksLikeDomain (safeStr v));
    [|apply safeStr_trimmed].
  destruct (safeStr_edges v) as [_ Hlast]. apply trim_id.
  - reflexivity.
  - rewrite rev_app_distr, headOk_app.
    destruct (rev (safeStr v)); [reflexivity | exact Hlast].
Qed.


(** No field of a normalised profile begins or ends with white space. *)
Theorem normalizeProfile_fields_trimmed (raw : RawProfile) :
  Forall (fun f => trim f = f) (allFields (normalizeProfile raw)).
Proof.
  rewrite <- (canonical_normalizeProfile raw : coerceProfile _ = _).
  generalize (asRaw (normalizeProfile raw)). intros r.
  unfold allFields, coerceProfile.
  cbn [firstName lastName fullName email phone addressLine city state
       postalCode country linkedin github website dateOfBirth summary
       coverLetter graduationYear experienceYears salaryExpectation].
  assert (He : trim (toLowerCase (safeStr (raw_email r)))
               = toLowerCase (safeStr (raw_email r))).
  { destruct (safeStr_edges (raw_email r)) as [H1 H2].
    destruct (toLowerCase_edges _ H1 H2). now apply trim_id. }
  repeat constructor;
    first [ apply safeStr_trimmed | exact He | apply normalizePhone_trimmed
          | apply normalizeUrl_trimmed ].
Qed.

Lemma deriveFullName_missing (p : Profile) :
  fullName p = [] ->
  deriveFullName p
  = set_fullName p
      (trim (join (js " ") (filterBoolean [firstName p; lastName p]))).
Proof. intros H. unfold deriveFullName. now rewrite H. Qed.

(** When the full name is missing and both the first and the last name are
    given, the full name is the two joined by one space, and the first and
    last names are kept. *)
Theorem normalizeProfile_joins_names (raw : RawProfile) :
  let f := safeStr (raw_firstName raw) in
  let l := safeStr (raw_lastName raw) in
  safeStr (raw_fullName raw) = [] -> f <> [] -> l <> [] ->
  fullName (normalizeProfile raw) = f ++ js " " ++ l
  /\ firstName (normalizeProfile raw) = f
  /\ lastName (normalizeProfile raw) = l.
Proof.
  intros f l Hn Hf Hl. unfold normalizeProfile.
  rewrite deriveFullName_missing by exact Hn.
  cbn [coerceProfile firstName lastName]. fold f l.
  assert (Hfb : filterBoolean [f; l] = [f; l]).
  { unfold filterBoolean. cbn [filter].
    apply truthy_true in Hf, Hl. now rewrite Hf, Hl. }
  rewrite Hfb. cbn [join].
  assert (Ht : trim (f ++ js " " ++ l) = f ++ js " " ++ l).
  { destruct (safeStr_edges (raw_firstName raw)) as [H1 _].
    destruct (safeStr_edges (raw_lastName raw)) as [_ H2].
    fold f in H1. fold l in H2. apply trim_id.
    - rewrite headOk_app. destruct f; [congruence | exact H1].
    - rewrite !rev_app_distr, <- app_assoc, headOk_app.
      destruct (rev l) eqn:E; [|exact H2].
      apply (f_equal (@rev N)) in E. rewrite rev_involutive in E.
      simpl in E. congruence. }
  rewrite Ht.
  destruct (deriveFirstLast_names
              (set_fullName (coerceProfile raw) (f ++ js " " ++ l)))
    as (H1 & H2 & H3).
  destruct (coerceProfile raw) eqn:Ec.
  cbn [set_fullName firstName lastName fullName] in *.
  assert (Ef : firstName0 = f)
    by (unfold f; now apply (f_equal firstName) in Ec).
  assert (El : lastName0 = l)
    by (unfold l; now apply (f_equal lastName) in Ec).
  subst firstName0 lastName0.
  apply truthy_true in Hf, Hl. rewrite Hf, Hl in H2, H3.
  cbn [negb orb andb] in H2, H3. auto.
Qed.

Lemma normalizeProfile_joins_names_witness :
  fullName (normalizeProfile adaRaw) = js "Ada" ++ js " " ++ js "Lovelace"
  /\ firstName (normalizeProfile adaRaw) = js "Ada"
  /\ lastName (normalizeProfile adaRaw) = js "Lovelace".
Proof.
  apply (normalizeProfile_joins_names adaRaw);
    [reflexivity | vm_compute; discriminate | vm_compute; discriminate].
Defined.

(** When only a first name of two words or more is given, it is kept as the
    first name and becomes the full name, and its words after the first
    become the last name; when only a last name of two words or more is
    given, its first word becomes the first name. *)
Theorem normalizeProfile_lone_name_is_split (raw : RawProfile) :
  let f := safeStr (raw_firstName raw) in
  let l := safeStr (raw_lastName raw) in
  safeStr (raw_fullName raw) = [] ->
  (l = [] -> (2 <= List.length (words f))%nat ->
   fullName (normalizeProfile raw) = f
   /\ firstName (normalizeProfile raw) = f
   /\ lastName (normalizeProfile raw) = join (js " ") (tl (words f)))
  /\ (f = [] -> (2 <= List.length (words l))%nat ->
      fullName (normalizeProfile raw) = l
      /\ firstName (normalizeProfile raw) = hd [] (words l)
      /\ lastName (normalizeProfile raw) = l).
Proof.
  intros f l Hn.
  assert (Hgen : forall g : JsString,
            filterBoolean [f; l] = [g] -> trim g = g ->
            (2 <= List.length (words g))%nat ->
            fullName (normalizeProfile raw) = g
            /\ firstName (normalizeProfile raw)
               = (if truthy f then f else hd [] (words g))
            /\ lastName (normalizeProfile raw)
               = (if truthy l then l else join (js " ") (tl (words g)))).
  { intros g Hfb Hg Hlen. unfold normalizeProfile.
    rewrite deriveFullName_missing by exact Hn.
    cbn [coerceProfile firstName lastName]. fold f l.
    rewrite Hfb. cbn [join]. rewrite Hg.
    destruct (deriveFirstLast_names (set_fullName (coerceProfile raw) g))
      as (H1 & H2 & H3).
    destruct (coerceProfile raw) eqn:Ec.
    cbn [set_fullName firstName lastName fullName] in *.
    assert (Ef : firstName0 = f)
      by (unfold f; now apply (f_equal firstName) in Ec).
    assert (El : lastName0 = l)
      by (unfold l; now apply (f_equal lastName) in Ec).
    subst firstName0 lastName0. fold (words g) in H2, H3.
    apply Nat.leb_le in Hlen. rewrite Hlen in H2, H3.
    assert (Hgt : truthy g = true).
    { destruct g; [|reflexivity]. vm_compute in Hlen. discriminate. }
    rewrite Hgt in H2, H3.
    assert (Hor : negb (truthy f) || negb (truthy l) = true).
    { unfold filterBoolean in Hfb. cbn [filter] in Hfb.
      destruct (truthy f), (truthy l); try reflexivity. discriminate. }
    rewrite Hor in H2, H3. cbn [andb] in H2, H3.
    rewrite H1, H2, H3.
    destruct (truthy f), (truthy l); auto. }
  split.
  - intros Hl Hlen.
    assert (Hf : truthy f = true).
    { destruct f; [|reflexivity]. vm_compute in Hlen. lia. }
    destruct (Hgen f) as (H1 & H2 & H3); auto.
    + unfold filterBoolean. cbn [filter]. now rewrite Hf, Hl.
    + apply safeStr_trimmed.
    + rewrite Hf in H2. rewrite Hl in H3. cbn [truthy] in H3. auto.
  - intros Hf Hlen.
    assert (Hl : truthy l = true).
    { destruct l; [|reflexivity]. vm_compute in Hlen. lia. }
    destruct (Hgen l) as (H1 & H2 & H3); auto.
    + unfold filterBoolean. cbn [filter]. now rewrite Hf, Hl.
    + apply safeStr_trimmed.
    + rewrite Hf in H2. rewrite Hl in H3. cbn [truthy] in H2. auto.
Qed.

Lemma normalizeProfile_lone_name_witness :
  (fullName (normalizeProfile maryAnnRaw) = js "Mary Ann"
   /\ firstName (normalizeProfile maryAnnRaw) = js "Mary Ann"
   /\ lastName (normalizeProfile maryAnnRaw) = js "Ann")
  /\ (fullName (normalizeProfile vanGoghRaw) = js "van Gogh"
      /\ firstName (normalizeProfile vanGoghRaw) = js "van"
      /\ lastName (normalizeProfile vanGoghRaw) = js "van Gogh").
Proof.
  split.
  - apply (proj1 (normalizeProfile_lone_name_is_split maryAnnRaw eq_refl));
      [reflexivity | vm_compute; lia].
  - apply (proj2 (normalizeProfile_lone_name_is_split vanGoghRaw eq_refl));
      [reflexivity | vm_compute; lia].
Defined.

(* ===================================================================== *)
(** ** More on tokens and signals *)
(* ===================================================================== *)

Lemma split_ws_from_Forall (P : CodeUnit -> Prop) (s cur : JsString)
  (skipping : bool) :
  Forall P cur -> Forall P s ->
  Forall (Forall P) (split_ws_from cur skipping s).
Proof.
  revert cur skipping.
  induction s as [|c r IH]; intros cur skipping Hcur Hs; simpl.
  - constructor; [now apply Forall_rev | constructor].
  - inversion Hs as [|? ? Hc Hr]; subst.
    destruct (isWs c).
    + destruct skipping; [now apply IH|].
      constructor; [now apply Forall_rev | now apply IH].
    + apply IH; [now constructor | exact Hr].
Qed.

Lemma replaceRuns_Forall (P : CodeUnit -> Prop) (p : CodeUnit -> bool)
  (s : JsString) (inRun : bool) :
  P 32%N -> Forall P s -> Forall P (replaceRuns p inRun s).
Proof.
  intros H32. revert inRun.
  induction s as [|c r IH]; intros inRun Hs; simpl; [constructor|].
  inversion Hs; subst.
  destruct (p c); [destruct inRun|]; auto.
Qed.

Lemma toLowerCase_units_fixed (s : JsString) :
  Forall (fun u => lowerUnit u = [u]) (toLowerCase s).
Proof.
  apply Forall_forall. intros u Hu. unfold toLowerCase in Hu.
  apply in_flat_map in Hu. destruct Hu as (c & _ & Hc).
  exact (lowerUnit_fixed c u Hc).
Qed.

(** Every token is a non-empty run of lower-case letters, digits, "+" and
    "-", and is none of the stop words; a text that is missing, empty or
    blank has no token. *)
Theorem tokenize_tokens (t : JsVal) :
  (safeStr t = [] -> tokenize t = [])
  /\ Forall (fun tok =>
               tok <> []
               /\ forallb tokenChar tok = true
               /\ toLowerCase tok = tok
               /\ ~ In tok STOP_WORDS)
            (tokenize t).
Proof.
  split.
  { intros H. unfold tokenize. now rewrite H. }
  unfold tokenize.
  destruct (truthy (toLowerCase (safeStr t))); cbn [negb]; [|constructor].
  set (cleaned := replaceOthers (replaceSeparators (toLowerCase (safeStr t)))).
  set (ok_unit := fun c : N =>
         (isLetter c || isNumber c || isWs c || (c =? 43)%N || (c =? 45)%N
          = true)
         /\ lowerUnit c = [c]).
  assert (Hclean : Forall ok_unit cleaned).
  { unfold cleaned, replaceOthers, replaceSeparators.
    apply Forall_forall. intros c Hc. apply in_map_iff in Hc.
    destruct Hc as (c0 & Hc & Hin).
    assert (Hfix : lowerUnit c0 = [c0]).
    { pose proof (replaceRuns_Forall (fun u => lowerUnit u = [u]) isSeparator
                    (toLowerCase (safeStr t)) false eq_refl
                    (toLowerCase_units_fixed _)) as H.
      rewrite Forall_forall in H. now apply H. }
    destruct (isLetter c0 || isNumber c0 || isWs c0 || (c0 =? 43)%N
              || (c0 =? 45)%N) eqn:E; subst c.
    - split; assumption.
    - split; reflexivity. }
  apply Forall_forall. intros tok Htok.
  apply filter_In in Htok. destruct Htok as [Hpart Hstop].
  pose proof (tokens_of_split cleaned) as Htoks.
  rewrite Forall_forall in Htoks. destruct (Htoks tok Hpart) as [Hne Hws].
  unfold filterBoolean in Hpart. apply filter_In in Hpart.
  destruct Hpart as [Hpiece _].
  pose proof (split_ws_from_Forall ok_unit cleaned [] false
                (Forall_nil _) Hclean) as Hall.
  rewrite Forall_forall in Hall. specialize (Hall tok Hpiece).
  split; [exact Hne|]. split; [|split].
  - apply forallb_forall. intros c Hc. rewrite Forall_forall in Hall.
    destruct (Hall c Hc) as [Ha _].
    unfold noWs in Hws. rewrite forallb_forall in Hws.
    specialize (Hws c Hc). apply negb_true_iff in Hws.
    unfold tokenChar. rewrite Hws in Ha.
    destruct (isLetter c), (isNumber c), (c =? 43)%N, (c =? 45)%N;
      try reflexivity; discriminate.
  - apply flat_map_fixed. intros u Hu. rewrite Forall_forall in Hall.
    now destruct (Hall u Hu).
  - intros Hin. apply negb_true_iff in Hstop.
    assert (existsb (str_eqb tok) STOP_WORDS = true); [|congruence].
    apply existsb_exists. exists tok. split; [exact Hin | apply str_eqb_refl].
Qed.

Lemma signalsUpTo_add (s : JsVal) (w : Z) (src : Source) (k : nat)
  (l : list Signal) :
  signalsUpTo (sourceRank src) l ->
  (S (sourceRank src) <= k)%nat -> w = weightOf src ->
  signalsUpTo k (add s w src l).
Proof.
  intros (Hwf & Hnd & Hrank & Hlen) Hk Hw. unfold add.
  destruct (truthy (safeStr s)) eqn:Ht; cbn [negb].
  - repeat split.
    + apply Forall_app. split; [exact Hwf|]. constructor; [|constructor].
      repeat split; cbn; [now apply truthy_true | apply safeStr_trimmed
                          | exact Hw].
    + rewrite map_app. cbn [map source].
      apply NoDup_app; [exact Hnd | repeat constructor; intros [] |].
      intros x Hx [<-|[]]. apply in_map_iff in Hx.
      destruct Hx as (y & Hy & Hin). rewrite Forall_forall in Hrank.
      specialize (Hrank y Hin). rewrite Hy in Hrank. lia.
    + apply Forall_app. split.
      * eapply Forall_impl; [|exact Hrank]. cbn. intros; lia.
      * constructor; [cbn; lia | constructor].
    + rewrite length_app. cbn. lia.
  - repeat split; auto.
    + eapply Forall_impl; [|exact Hrank]. cbn. intros; lia.
    + lia.
Qed.

Lemma signalsUpTo_nil (k : nat) : signalsUpTo k [].
Proof. repeat split; cbn; try constructor. lia. Qed.

(** The signals of an element: each has a text that is not empty and is
    trimmed, and the weight of its source (placeholder 4, aria-label 5, name
    and id 3, autocomplete 7, test ids 2, label-for and label-wrap 9,
    near-label 6); no source gives two signals, so there are eleven at
    most. *)
Theorem getElementTextSignals_wellFormed (el : Element) :
  Forall wellFormedSignal (getElementTextSignals el)
  /\ NoDup (map source (getElementTextSignals el))
  /\ (List.length (getElementTextSignals el) <= 11)%nat.
Proof.
  assert (H : signalsUpTo 11 (getElementTextSignals el)).
  { unfold getElementTextSignals. cbv zeta.
    repeat first
      [ apply signalsUpTo_nil
      | apply signalsUpTo_add; [ | cbn; lia | reflexivity ]
      | match goal with
        | |- signalsUpTo _ (if ?b then _ else _) => destruct b
        | |- signalsUpTo _ (match ?o with Some _ => _ | None => _ end) =>
            destruct o
        end ]. }
  destruct H as (H1 & H2 & _ & H3). auto.
Qed.

(* ===================================================================== *)
(** ** More on the nearest label *)
(* ===================================================================== *)


(* ===================================================================== *)
(** ** More on the scorer *)
(* ===================================================================== *)

Lemma totalPoints_app (rs : list Reason) (r : Reason) :
  totalPoints (rs ++ [r]) = totalPoints rs + points r.
Proof.
  unfold totalPoints. induction rs as [|x rs IH]; cbn; [lia|].
  rewrite IH. lia.
Qed.

Lemma balanced_bump (d : Z) (r : Reason) (acc : ScoreResult) :
  points r = d -> balanced acc -> balanced (bump d r acc).
Proof.
  unfold balanced, bump. cbn. intros Hp Hb.
  rewrite totalPoints_app, Hb, Hp. reflexivity.
Qed.

Lemma balanced_when (b : bool) (d : Z) (r : Reason) (acc : ScoreResult) :
  points r = d -> balanced acc -> balanced (when b (bump d r) acc).
Proof. intros Hp Hb. destruct b; cbn; [now apply balanced_bump | exact Hb]. Qed.

Lemma balanced_scoreSignals (ft : FieldType) (sigs : list Signal)
  (acc : ScoreResult) :
  balanced acc -> balanced (fold_left (scoreSignal ft) sigs acc).
Proof.
  revert acc. induction sigs as [|s sigs IH]; intros acc Hb; cbn; [exact Hb|].
  apply IH. unfold scoreSignal.
  destruct (negb _); [now apply balanced_bump | exact Hb].
Qed.

(** The score of an element for a field type is the total of the points
    that its reasons announce: +30 or -8 for the autocomplete value, the
    bonus of the input type, local score times weight for each matching
    signal, the bonus of a name or id pattern, -10 for a search box. *)
Theorem scoreFieldType_balanced (el : Element) (ft : FieldType) :
  score (scoreFieldType el ft) = totalPoints (reasons (scoreFieldType el ft)).
Proof.
  change (balanced (scoreFieldType el ft)).
  unfold scoreFieldType. cbv zeta.
  assert (H0 : balanced (mkScore 0 [])) by reflexivity.
  assert (H1 : balanced (scoreAutocomplete el ft (mkScore 0 []))).
  { unfold scoreAutocomplete.
    destruct (truthy _); [|exact H0].
    destruct (autocompleteLookup _) as [m| |];
      [destruct (FieldType_eqb m ft)| |];
      first [now apply balanced_bump | exact H0]. }
  revert H1. generalize (scoreAutocomplete el ft (mkScore 0 [])).
  intros a1 H1.
  assert (H2 : balanced (scoreInputType el ft a1)).
  { unfold scoreInputType. cbv zeta.
    destruct (str_eqb _ _); [|exact H1].
    repeat apply balanced_when; auto. }
  revert H2. generalize (scoreInputType el ft a1). intros a2 H2.
  assert (H3 : balanced (scoreSignals el ft a2))
    by now apply balanced_scoreSignals.
  revert H3. generalize (scoreSignals el ft a2). intros a3 H3.
  assert (H4 : balanced (scorePatterns el ft a3)).
  { unfold scorePatterns. cbv zeta.
    destruct (truthy _); [|exact H3].
    repeat apply balanced_when; auto. }
  revert H4. generalize (scorePatterns el ft a3). intros a4 H4.
  unfold scoreSearchLike. cbv zeta.
  destruct (_ || _); [now apply balanced_bump | exact H4].
Qed.

Lemma scoreAutocomplete_own_keys_witness :
  score (scoreAutocomplete familyNameInput FT_lastName (mkScore 0 [])) = 30
  /\ score (scoreAutocomplete familyNameInput FT_city (mkScore 0 [])) = -8
  /\ score (scoreAutocomplete nameLabelled FT_city (mkScore 0 [])) = 0.
Proof.
  split; [|split].
  - rewrite (scoreAutocomplete_own_keys familyNameInput FT_lastName);
      reflexivity.
  - rewrite (scoreAutocomplete_own_keys familyNameInput FT_city);
      reflexivity.
  - rewrite (scoreAutocomplete_own_keys nameLabelled FT_city); reflexivity.
Defined.

(* ===================================================================== *)
(** ** The scorer reads lower-cased texts *)
(* ===================================================================== *)

Lemma wsLowerOk_small : forallb wsLowerOk (map N.of_nat (seq 0 384)) = true.
Proof. vm_compute. reflexivity. Qed.

Lemma lowerUnit_ws (c : CodeUnit) : isWs c = true -> lowerUnit c = [c].
Proof.
  intros Hc.
  destruct (N.lt_ge_cases c 384) as [Hlt|Hge]; [|now apply lowerUnit_big].
  pose proof wsLowerOk_small as H. rewrite forallb_forall in H.
  assert (Hin : In c (map N.of_nat (seq 0 384))).
  { replace c with (N.of_nat (N.to_nat c)) by apply N2Nat.id.
    apply in_map, in_seq. lia. }
  specialize (H c Hin). unfold wsLowerOk in H. rewrite Hc in H.
  now apply str_eqb_eq.
Qed.

Lemma trimStart_flat_map (f : CodeUnit -> JsString) (s : JsString) :
  (forall c, isWs c = true -> f c = [c]) ->
  (forall c, isWs c = false -> noWs (f c) = true /\ f c <> []) ->
  trimStart (flat_map f s) = flat_map f (trimStart s).
Proof.
  intros Hws Hnws. induction s as [|c r IH]; [reflexivity|].
  cbn [flat_map trimStart]. destruct (isWs c) eqn:E.
  - rewrite (Hws c E). cbn [app trimStart]. now rewrite E.
  - destruct (Hnws c E) as [Hn Hne].
    destruct (f c) as [|u us] eqn:Ef; [congruence|].
    cbn [app trimStart]. cbn in Hn. apply andb_true_iff in Hn.
    destruct Hn as [Hu _]. apply negb_true_iff in Hu. rewrite Hu.
    cbn [flat_map]. now rewrite Ef.
Qed.

Lemma trim_toLowerCase (s : JsString) :
  trim (toLowerCase s) = toLowerCase (trim s).
Proof.
  unfold trim, trimEnd, toLowerCase.
  rewrite (trimStart_flat_map lowerUnit s lowerUnit_ws lowerUnit_noWs).
  rewrite rev_flat_map.
  rewrite (trimStart_flat_map (fun c => rev (lowerUnit c))).
  - rewrite rev_flat_map. apply flat_map_ext. intros c.
    apply rev_involutive.
  - intros c Hc. now rewrite (lowerUnit_ws c Hc).
  - intros c Hc. destruct (lowerUnit_noWs c Hc) as [Hn Hne]. split.
    + now rewrite noWs_rev.
    + intros E. apply Hne. apply (f_equal (@rev N)) in E.
      now rewrite rev_involutive in E.
Qed.

Lemma truthy_toLowerCase (s : JsString) : truthy (toLowerCase s) = truthy s.
Proof.
  destruct s as [|c r]; [reflexivity|]. cbn.
  pose proof (lowerOk_all c) as H. unfold lowerOk in H.
  apply andb_true_iff in H. destruct H as [_ H].
  now destruct (lowerUnit c).
Qed.

Lemma toLowerCase_app (a b : JsString) :
  toLowerCase (a ++ b) = toLowerCase a ++ toLowerCase b.
Proof. apply flat_map_app. Qed.

Lemma safeStr_lowerVal (v : JsVal) :
  safeStr (lowerVal v) = toLowerCase (safeStr v).
Proof. destruct v; cbn; try reflexivity. apply trim_toLowerCase. Qed.

Lemma orEmpty_lowerVal (v : JsVal) :
  orEmpty (lowerVal v) = toLowerCase (orEmpty v).
Proof. destruct v; reflexivity. Qed.

Lemma lower_safeStr_lowerVal (v : JsVal) :
  toLowerCase (safeStr (lowerVal v)) = toLowerCase (safeStr v).
Proof. now rewrite safeStr_lowerVal, toLowerCase_idem. Qed.

(** The tokens of a text do not depend on the case of its letters. *)
Lemma tokenize_toLowerCase (s : JsString) :
  tokenize (JsStr (toLowerCase s)) = tokenize (JsStr s).
Proof.
  unfold tokenize. change (safeStr (JsStr (toLowerCase s)))
    with (safeStr (lowerVal (JsStr s))).
  now rewrite lower_safeStr_lowerVal.
Qed.

Lemma labelCandidate_lower (er : DOMRect) (l : LabelEl) :
  labelCandidate er (lowerLabel l) = map lowerCandidate (labelCandidate er l).
Proof.
  unfold labelCandidate, lowerLabel. cbn [l_innerText l_rect].
  rewrite safeStr_lowerVal, truthy_toLowerCase.
  destruct (truthy (safeStr (l_innerText l))); cbn [negb]; [|reflexivity].
  destruct (_ && _); reflexivity.
Qed.

Lemma insertByDist_lower (x : LabelCandidate) (l : list LabelCandidate) :
  insertByDist (lowerCandidate x) (map lowerCandidate l)
  = map lowerCandidate (insertByDist x l).
Proof.
  induction l as [|y l IH]; [reflexivity|]. cbn [map insertByDist].
  change (distLe (lowerCandidate x) (lowerCandidate y)) with (distLe x y).
  destruct (distLe x y); cbn [map]; [reflexivity | now rewrite IH].
Qed.

Lemma sortByDist_lower (l : list LabelCandidate) :
  sortByDist (map lowerCandidate l) = map lowerCandidate (sortByDist l).
Proof.
  induction l as [|x l IH]; [reflexivity|]. cbn [map sortByDist fold_right].
  fold (sortByDist (map lowerCandidate l)). fold (sortByDist l).
  now rewrite IH, insertByDist_lower.
Qed.

Lemma flat_map_lowerLabel (er : DOMRect) (ls : list LabelEl) :
  flat_map (labelCandidate er) (map lowerLabel ls)
  = map lowerCandidate (flat_map (labelCandidate er) ls).
Proof.
  induction ls as [|l ls IH]; [reflexivity|]. cbn [map flat_map].
  now rewrite map_app, IH, labelCandidate_lower.
Qed.

Lemma findNearestLabelText_lower (el : Element) :
  findNearestLabelText (lowerCased el)
  = toLowerCase (findNearestLabelText el).
Proof.
  unfold findNearestLabelText, lowerCased. cbn [nearLabels rect].
  destruct (nearLabels el) as [ls| |]; cbn [lowerLookup]; try reflexivity.
  rewrite flat_map_lowerLabel, sortByDist_lower.
  destruct (sortByDist _); reflexivity.
Qed.

Lemma add_lower (v : JsVal) (w : Z) (src : Source) (l : list Signal) :
  add (lowerVal v) w src (map lowerSignal l)
  = map lowerSignal (add v w src l).
Proof.
  unfold add. rewrite safeStr_lowerVal, truthy_toLowerCase.
  destruct (truthy (safeStr v)); cbn [negb]; [|reflexivity].
  now rewrite map_app.
Qed.

(** The signals of an element, one source after the other. *)
Lemma getElementTextSignals_parts (el : Element) :
  getElementTextSignals el
  = (signalOf (getAttribute el A_placeholder) 4 SrcPlaceholder
     ++ signalOf (getAttribute el A_aria_label) 5 SrcAriaLabel
     ++ signalOf (getAttribute el A_name) 3 SrcName
     ++ signalOf (getAttribute el A_id) 3 SrcId
     ++ signalOf (getAttribute el A_autocomplete) 7 SrcAutocomplete
     ++ signalOf (getAttribute el A_data_testid) 2 SrcDataTestid
     ++ signalOf (getAttribute el A_data_test) 2 SrcDataTest
     ++ signalOf (getAttribute el A_data_qa) 2 SrcDataQa)
    ++ (if truthy (orEmpty (getAttribute el A_id))
        then match labelFor el with
             | Some lbl => signalOf lbl 9 SrcLabelFor
             | None => []
             end
        else [])
    ++ match parentLabel el with
       | Some lbl => signalOf lbl 9 SrcLabelWrap
       | None => []
       end
    ++ signalOf (JsStr (findNearestLabelText el)) 6 SrcNearLabel.
Proof.
  unfold getElementTextSignals.
  set (base := add (getAttribute el A_data_qa) 2 SrcDataQa _).
  assert (Hbase :
    base = signalOf (getAttribute el A_placeholder) 4 SrcPlaceholder
       ++ signalOf (getAttribute el A_aria_label) 5 SrcAriaLabel
       ++ signalOf (getAttribute el A_name) 3 SrcName
       ++ signalOf (getAttribute el A_id) 3 SrcId
       ++ signalOf (getAttribute el A_autocomplete) 7 SrcAutocomplete
       ++ signalOf (getAttribute el A_data_testid) 2 SrcDataTestid
       ++ signalOf (getAttribute el A_data_test) 2 SrcDataTest
       ++ signalOf (getAttribute el A_data_qa) 2 SrcDataQa).
  { unfold base. rewrite !add_signalOf. simpl. now rewrite <- !app_assoc. }
  clearbody base. subst base.
  set (base := _ ++ _).
  set (l1 := if truthy (orEmpty (getAttribute el A_id)) then _ else _).
  assert (H1 : l1 = base
                    ++ (if truthy (orEmpty (getAttribute el A_id))
                        then match labelFor el with
                             | Some lbl => signalOf lbl 9 SrcLabelFor
                             | None => []
                             end
                        else [])).
  { unfold l1. destruct (truthy (orEmpty (getAttribute el A_id)));
      [destruct (labelFor el)|];
      first [apply add_signalOf | now rewrite app_nil_r]. }
  clearbody l1. subst l1.
  set (l2 := match parentLabel el with Some _ => _ | None => _ end).
  assert (H2 : l2 = (base
                     ++ (if truthy (orEmpty (getAttribute el A_id))
                         then match labelFor el with
                              | Some lbl => signalOf lbl 9 SrcLabelFor
                              | None => []
                              end
                         else []))
                    ++ match parentLabel el with
                       | Some lbl => signalOf lbl 9 SrcLabelWrap
                       | None => []
                       end).
  { unfold l2. destruct (parentLabel el);
      first [apply add_signalOf | now rewrite app_nil_r]. }
  clearbody l2. subst l2.
  rewrite <- !app_assoc.
  destruct (truthy (findNearestLabelText el)) eqn:Hnear.
  - rewrite add_signalOf. now rewrite <- !app_assoc.
  - apply truthy_false in Hnear. rewrite Hnear.
    change (signalOf (JsStr []) 6 SrcNearLabel) with (@nil Signal).
    now rewrite !app_nil_r.
Qed.

Lemma signalOf_lower (v : JsVal) (w : Z) (src : Source) :
  signalOf (lowerVal v) w src = map lowerSignal (signalOf v w src).
Proof.
  unfold signalOf. rewrite safeStr_lowerVal, truthy_toLowerCase.
  now destruct (truthy (safeStr v)).
Qed.

Lemma getElementTextSignals_lower (el : Element) :
  getElementTextSignals (lowerCased el)
  = map lowerSignal (getElementTextSignals el).
Proof.
  rewrite !getElementTextSignals_parts, findNearestLabelText_lower.
  unfold lowerCased. cbn [getAttribute labelFor parentLabel].
  rewrite orEmpty_lowerVal, truthy_toLowerCase, !map_app, !signalOf_lower.
  f_equal. f_equal; [|f_equal].
  - destruct (truthy _); [|reflexivity].
    destruct (labelFor el); cbn [option_map map];
      [apply signalOf_lower | reflexivity].
  - destruct (parentLabel el); cbn [option_map map];
      [apply signalOf_lower | reflexivity].
  - apply (signalOf_lower (JsStr (findNearestLabelText el))).
Qed.

Lemma scoreSignal_lower (ft : FieldType) (acc : ScoreResult) (s : Signal) :
  scoreSignal ft acc (lowerSignal s) = scoreSignal ft acc s.
Proof.
  unfold scoreSignal, lowerSignal. cbn [text weight source].
  now rewrite tokenize_toLowerCase.
Qed.

Lemma scoreSignals_lower (ft : FieldType) (sigs : list Signal)
  (acc : ScoreResult) :
  fold_left (scoreSignal ft) (map lowerSignal sigs) acc
  = fold_left (scoreSignal ft) sigs acc.
Proof.
  revert acc. induction sigs as [|s sigs IH]; intros acc; [reflexivity|].
  cbn [map fold_left]. now rewrite scoreSignal_lower, IH.
Qed.

(** Putting every text of an element in lower case changes neither its
    score nor its reasons, for any field type. *)
Lemma scoreFieldType_lowerCased (el : Element) (ft : FieldType) :
  scoreFieldType (lowerCased el) ft = scoreFieldType el ft.
Proof.
  unfold scoreFieldType. cbv zeta.
  assert (H1 : forall acc,
             scoreAutocomplete (lowerCased el) ft acc
             = scoreAutocomplete el ft acc).
  { intros acc. unfold scoreAutocomplete, lowerCased. cbn [getAttribute].
    now rewrite lower_safeStr_lowerVal. }
  assert (H2 : forall acc,
             scoreInputType (lowerCased el) ft acc
             = scoreInputType el ft acc).
  { intros acc. unfold scoreInputType, lowerCased.
    cbn [getAttribute tagName].
    now rewrite lower_safeStr_lowerVal, orEmpty_lowerVal, toLowerCase_idem. }
  assert (H3 : forall acc,
             scoreSignals (lowerCased el) ft acc = scoreSignals el ft acc).
  { intros acc. unfold scoreSignals.
    now rewrite getElementTextSignals_lower, scoreSignals_lower. }
  assert (H4 : forall acc,
             scorePatterns (lowerCased el) ft acc = scorePatterns el ft acc).
  { intros acc. unfold scorePatterns, lowerCased. cbn [getAttribute].
    rewrite !safeStr_lowerVal.
    replace (toLowerCase
               (toLowerCase (safeStr (getAttribute el A_name)) ++ js " "
                ++ toLowerCase (safeStr (getAttribute el A_id))))
      with (toLowerCase
              (safeStr (getAttribute el A_name) ++ js " "
               ++ safeStr (getAttribute el A_id))); [reflexivity|].
    rewrite !toLowerCase_app, !toLowerCase_idem. reflexivity. }
  assert (H5 : forall acc,
             scoreSearchLike (lowerCased el) acc = scoreSearchLike el acc).
  { intros acc. unfold scoreSearchLike, lowerCased. cbn [getAttribute].
    now rewrite lower_safeStr_lowerVal. }
  now rewrite H1, H2, H3, H4, H5.
Qed.

(** The scorer reads an element through its tag name, its attributes, its
    labels and its geometry only. *)
Lemma scoreFieldType_ext (e1 e2 : Element) (ft : FieldType) :
  tagName e1 = tagName e2 ->
  (forall a, getAttribute e1 a = getAttribute e2 a) ->
  labelFor e1 = labelFor e2 -> parentLabel e1 = parentLabel e2 ->
  rect e1 = rect e2 -> nearLabels e1 = nearLabels e2 ->
  scoreFieldType e1 ft = scoreFieldType e2 ft.
Proof.
  intros Htag Hattr Hfor Hwrap Hrect Hnear.
  assert (Hn : findNearestLabelText e1 = findNearestLabelText e2).
  { unfold findNearestLabelText. now rewrite Hnear, Hrect. }
  assert (Hs : getElementTextSignals e1 = getElementTextSignals e2).
  { rewrite !getElementTextSignals_parts. now rewrite !Hattr, Hfor, Hwrap, Hn. }
  unfold scoreFieldType, scoreAutocomplete, scoreInputType, scoreSignals,
    scorePatterns, scoreSearchLike.
  now rewrite !Hattr, Htag, Hs.
Qed.

(** The scorer reads the tag name, the attributes and the label texts of an
    element only through [toLowerCase]: two elements for which these have the
    same lower-cased forms get the same score, with the same reasons, for
    every field type.  This is less than indifference to letter case:
    [toLowerCase] turns the dotted capital of "İSİM" into "i" and a combining
    dot, so that a label written "İSİM" scores nothing for the first name,
    where "ISIM" and "isim" score 27. *)
Theorem scoreFieldType_through_toLowerCase :
  (forall (el1 el2 : Element) (ft : FieldType),
     sameLowerCased el1 el2 ->
     scoreFieldType el1 ft = scoreFieldType el2 ft)
  /\ score (scoreFieldType (labelledInput "isim") FT_firstName) = 27
  /\ score (scoreFieldType (labelledInput "ISIM") FT_firstName) = 27
  /\ score (scoreFieldType (labelledInput "İSİM") FT_firstName) = 0.
Proof.
  split; [|vm_compute; repeat split].
  intros el1 el2 ft (Htag & Hattr & Hfor & Hwrap & Hrect & Hnear).
  rewrite <- (scoreFieldType_lowerCased el1 ft),
          <- (scoreFieldType_lowerCased el2 ft).
  apply scoreFieldType_ext; unfold lowerCased; cbn; auto.
Qed.

Lemma scoreFieldType_through_toLowerCase_witness :
  scoreFieldType shoutedEmailInput FT_email
  = scoreFieldType quietEmailInput FT_email.
Proof.
  apply (proj1 scoreFieldType_through_toLowerCase
           shoutedEmailInput quietEmailInput).
  repeat split. intros a. destruct a; reflexivity.
Defined.

(* ===================================================================== *)
(** ** More on the injector *)
(* ===================================================================== *)

Lemma includes_nil (s : JsString) : includes s [] = true.
Proof. destruct s; reflexivity. Qed.

(** A selector that has an option whose text is empty or blank (a
    placeholder option) never fails on a desired value that is not empty:
    the empty text is contained in every desired value, so the third tier
    matches whatever is asked. *)
Theorem setSelectValue_blank_option_matches (sel : Element) (desired : JsVal)
  (o : OptionEl) :
  safeStr desired <> [] ->
  In o (options sel) -> normalizeForCompare (opt_textContent o) = [] ->
  ok (fst (setSelectValue sel desired)) = true
  /\ exists o', In o' (options sel)
                /\ to (fst (setSelectValue sel desired)) = Some (opt_value o')
                /\ value (snd (setSelectValue sel desired)) = opt_value o'.
Proof.
  intros Hne Ho Hblank. apply truthy_true in Hne.
  unfold setSelectValue. rewrite Hne. cbn [negb].
  destruct (find (valueMatches _) _) as [o1|] eqn:E1.
  { split; [reflexivity|]. exists o1. apply find_some in E1. now destruct E1. }
  destruct (find (textMatches _) _) as [o2|] eqn:E2.
  { split; [reflexivity|]. exists o2. apply find_some in E2. now destruct E2. }
  destruct (find (fuzzyMatches _) _) as [o3|] eqn:E3.
  { split; [reflexivity|]. exists o3. apply find_some in E3. now destruct E3. }
  exfalso. pose proof (find_none _ _ E3 o Ho) as H.
  unfold fuzzyMatches in H. rewrite Hblank, includes_nil, orb_true_r in H.
  discriminate.
Qed.

Lemma setSelectValue_blank_option_witness :
  ok (fst (setSelectValue placeholderSelect (JsStr (js "usa")))) = true
  /\ exists o', In o' (options placeholderSelect)
       /\ to (fst (setSelectValue placeholderSelect (JsStr (js "usa"))))
          = Some (opt_value o')
       /\ value (snd (setSelectValue placeholderSelect (JsStr (js "usa"))))
          = opt_value o'.
Proof.
  apply (setSelectValue_blank_option_matches placeholderSelect
           (JsStr (js "usa")) (mkOption [] [])).
  - vm_compute. discriminate.
  - now left.
  - reflexivity.
Defined.

Lemma options_choose (sel : Element) (o : OptionEl) :
  options (choose sel o) = options sel.
Proof. reflexivity. Qed.

(** A call either fails and returns the selector, or chooses one of its
    options. *)
Lemma setSelectValue_cases (sel : Element) (desired : JsVal) :
  (exists e, setSelectValue sel desired = (failure e, sel))
  \/ (exists m o, In o (options sel)
                  /\ setSelectValue sel desired
                     = (selected m (opt_value o), choose sel o)).
Proof.
  unfold setSelectValue.
  destruct (truthy (safeStr desired)); cbn [negb]; [|left; eauto].
  destruct (find (valueMatches _) _) as [o|] eqn:E1.
  { right. exists ByValue, o. apply find_some in E1. now destruct E1. }
  destruct (find (textMatches _) _) as [o|] eqn:E2.
  { right. exists ByText, o. apply find_some in E2. now destruct E2. }
  destruct (find (fuzzyMatches _) _) as [o|] eqn:E3.
  { right. exists ByFuzzy, o. apply find_some in E3. now destruct E3. }
  left. eauto.
Qed.

(** The result and the value chosen depend on the options only. *)
Lemma setSelectValue_options_only (s1 s2 : Element) (desired : JsVal) :
  options s1 = options s2 ->
  fst (setSelectValue s1 desired) = fst (setSelectValue s2 desired)
  /\ (ok (fst (setSelectValue s2 desired)) = true ->
      value (snd (setSelectValue s1 desired))
      = value (snd (setSelectValue s2 desired))).
Proof.
  intros H. unfold setSelectValue. rewrite H.
  destruct (truthy (safeStr desired)); cbn [negb];
    [|split; [reflexivity | discriminate]].
  repeat match goal with
         | |- context [find ?p ?l] => destruct (find p l)
         end;
    split; first [reflexivity | discriminate].
Qed.

(** A selection leaves the options of the selector as they were; when it
    succeeds, the new value of the selector is the value of one of its
    options, the one the result announces; when it fails, the selector is
    unchanged; and asking again for the same value gives the same result and
    the same value. *)
Theorem setSelectValue_stable (sel : Element) (desired : JsVal) :
  let r := fst (setSelectValue sel desired) in
  let sel' := snd (setSelectValue sel desired) in
  options sel' = options sel
  /\ (ok r = true ->
      to r = Some (value sel')
      /\ In (value sel') (map opt_value (options sel)))
  /\ (ok r = false -> sel' = sel)
  /\ fst (setSelectValue sel' desired) = r
  /\ (ok r = true -> value (snd (setSelectValue sel' desired)) = value sel').
Proof.
  cbv zeta.
  destruct (setSelectValue_cases sel desired)
    as [[e E] | (m & o & Hin & E)].
  - rewrite E. cbn [fst snd]. rewrite E. cbn [fst snd].
    repeat split; discriminate.
  - destruct (setSelectValue_options_only (choose sel o) sel desired
                (options_choose sel o)) as [Hr Hv].
    rewrite E in *. cbn [fst snd] in *.
    split; [reflexivity|]. split.
    { intros _. split; [reflexivity | exact (in_map opt_value _ _ Hin)]. }
    split; [discriminate|]. split; [exact Hr|].
    intros Hok. now rewrite (Hv Hok).
Qed.

(** Two writes in a row to an element that is not a selector and whose host
    accepts both: each succeeds and reports as new value the string it
    wrote; the second reports as previous value what the host kept of the
    first, which need not be the string written; the element ends with what
    the host keeps of the second; and each write leaves three marks in
    order: the write, then "input", then "change". *)
Theorem setNativeValue_twice (el : Element) (v w : JsVal) :
  tagKind el <> js "select" ->
  writeError el (safeStr v) = None -> writeError el (safeStr w) = None ->
  exists el1 el2 w1 w2,
    setNativeValue (Some el) v
    = (mkResult true (Some (value el)) (Some (safeStr v)) None None, Some el1)
    /\ value el1 = sanitize el (safeStr v)
    /\ setNativeValue (Some el1) w
       = (mkResult true (Some (sanitize el (safeStr v))) (Some (safeStr w))
            None None,
          Some el2)
    /\ value el2 = sanitize el (safeStr w)
    /\ trace el2
       = trace el ++ [w1; EffDispatch EvInput; EffDispatch EvChange;
                      w2; EffDispatch EvInput; EffDispatch EvChange]
    /\ (w1 = EffNativeSet (safeStr v) \/ w1 = EffAssign (safeStr v))
    /\ (w2 = EffNativeSet (safeStr w) \/ w2 = EffAssign (safeStr w)).
Proof.
  intros Htag Hv Hw.
  set (w1 := if protoValueSetter el then EffNativeSet (safeStr v)
             else EffAssign (safeStr v)).
  set (el1 := dispatchEvent EvChange
                (dispatchEvent EvInput
                   (record w1 (storeValue (sanitize el (safeStr v)) el)))).
  set (w2 := if protoValueSetter el then EffNativeSet (safeStr w)
             else EffAssign (safeStr w)).
  set (el2 := dispatchEvent EvChange
                (dispatchEvent EvInput
                   (record w2 (storeValue (sanitize el (safeStr w)) el1)))).
  assert (E1 : writeValue el (safeStr v)
               = Normal (record w1 (storeValue (sanitize el (safeStr v)) el))).
  { unfold writeValue, w1. rewrite Hv. now destruct (protoValueSetter el). }
  assert (E2 : writeValue el1 (safeStr w)
               = Normal (record w2
                           (storeValue (sanitize el (safeStr w)) el1))).
  { unfold writeValue, w2. change (writeError el1) with (writeError el).
    change (protoValueSetter el1) with (protoValueSetter el).
    change (sanitize el1) with (sanitize el).
    rewrite Hw. now destruct (protoValueSetter el). }
  assert (Htag1 : tagKind el1 <> js "select") by exact Htag.
  exists el1, el2, w1, w2.
  split; [now rewrite (setNativeValue_text el v Htag), E1|].
  split; [reflexivity|].
  split; [now rewrite (setNativeValue_text el1 w Htag1), E2|].
  split; [reflexivity|].
  split.
  - cbn. now rewrite <- !app_assoc.
  - unfold w1, w2. destruct (protoValueSetter el); auto.
Qed.

(** On the input of type color: "red" is reported as written and the host
    keeps "#000000"; "#FF0000" then reports "#000000" as the previous value,
    and the host keeps "#ff0000". *)
Lemma setNativeValue_twice_witness :
  exists el1 el2 w1 w2,
    setNativeValue (Some colorInput) (JsStr (js " red "))
    = (mkResult true (Some (js "#336699")) (Some (js "red")) None None,
       Some el1)
    /\ value el1 = js "#000000"
    /\ setNativeValue (Some el1) (JsStr (js "#FF0000"))
       = (mkResult true (Some (js "#000000")) (Some (js "#FF0000")) None None,
          Some el2)
    /\ value el2 = js "#ff0000"
    /\ trace el2
       = [w1; EffDispatch EvInput; EffDispatch EvChange;
          w2; EffDispatch EvInput; EffDispatch EvChange]
    /\ (w1 = EffNativeSet (js "red") \/ w1 = EffAssign (js "red"))
    /\ (w2 = EffNativeSet (js "#FF0000") \/ w2 = EffAssign (js "#FF0000")).
Proof.
  apply (setNativeValue_twice colorInput (JsStr (js " red "))
           (JsStr (js "#FF0000")));
    [vm_compute; discriminate | reflexivity | reflexivity].
Defined.

(* ===================================================================== *)
(** ** Site rules *)
(* ===================================================================== *)

Lemma isAllowedByRules_unfold (domain : JsString) (rules : option SiteRules) :
  isAllowedByRules domain rules
  = let mode := effectiveMode rules in
    let entry := entryOf domain rules in
    if str_eqb mode (js "neutral") then
      if ruleIs entry "blacklist"
      then mkVerdict false (js "domain blacklisted")
      else mkVerdict true (js "neutral")
    else if str_eqb mode (js "whitelist") then
      if ruleIs entry "whitelist"
      then mkVerdict true (js "domain whitelisted")
      else mkVerdict false (js "not in whitelist mode list")
    else if str_eqb mode (js "blacklist") then
      if ruleIs entry "blacklist"
      then mkVerdict false (js "domain blacklisted (mode)")
      else mkVerdict true (js "blacklist mode allow")
    else mkVerdict true (js "default allow").
Proof. reflexivity. Qed.

Lemma ruleIs_exclusive (entry : option DomainEntry) :
  ruleIs entry "blacklist" = true -> ruleIs entry "whitelist" = false.
Proof.
  unfold ruleIs. destruct entry as [e|]; [|discriminate].
  destruct (rule e) as [| |s]; try discriminate.
  intros H. apply str_eqb_eq in H. subst s. reflexivity.
Qed.

Lemma ruleIs_exclusive' (entry : option DomainEntry) :
  ruleIs entry "whitelist" = true -> ruleIs entry "blacklist" = false.
Proof.
  unfold ruleIs. destruct entry as [e|]; [|discriminate].
  destruct (rule e) as [| |s]; try discriminate.
  intros H. apply str_eqb_eq in H. subst s. reflexivity.
Qed.

(** A domain whose rule is "blacklist" is refused in each of the three
    modes, the missing mode counting as neutral; but when the stored mode is
    any other text, every domain is allowed, the blacklisted ones too. *)
Theorem isAllowedByRules_blacklisted (domain : JsString)
  (rules : option SiteRules) :
  (ruleIs (entryOf domain rules) "blacklist" = true ->
   In (effectiveMode rules) knownModes ->
   allowed (isAllowedByRules domain rules) = false)
  /\ (~ In (effectiveMode rules) knownModes ->
      isAllowedByRules domain rules = mkVerdict true (js "default allow")).
Proof.
  rewrite isAllowedByRules_unfold. cbv zeta. split.
  - intros Hb Hm. rewrite Hb, (ruleIs_exclusive _ Hb).
    destruct Hm as [<-|[<-|[<-|[]]]]; reflexivity.
  - intros Hm.
    destruct (str_eqb_spec (effectiveMode rules) (js "neutral")) as [E|_].
    { exfalso. apply Hm. rewrite E. now left. }
    destruct (str_eqb_spec (effectiveMode rules) (js "whitelist")) as [E|_].
    { exfalso. apply Hm. rewrite E. right. now left. }
    destruct (str_eqb_spec (effectiveMode rules) (js "blacklist")) as [E|_].
    { exfalso. apply Hm. rewrite E. right. right. now left. }
    reflexivity.
Qed.

Lemma isAllowedByRules_blacklisted_witness :
  allowed (isAllowedByRules (js "ads.example.net") (Some sampleRules)) = false
  /\ isAllowedByRules (js "ads.example.net")
       (Some (mkRules (JsStr (js "Whitelist")) (domains sampleRules)))
     = mkVerdict true (js "default allow").
Proof.
  split.
  - apply (proj1 (isAllowedByRules_blacklisted (js "ads.example.net")
                    (Some sampleRules))); [reflexivity|].
    right. left. reflexivity.
  - apply (proj2 (isAllowedByRules_blacklisted (js "ads.example.net")
                    (Some (mkRules (JsStr (js "Whitelist"))
                                   (domains sampleRules))))).
    vm_compute. intros H.
    repeat (destruct H as [H|H]; [discriminate H|]). exact H.
Defined.

(** A domain whose rule is "whitelist" is allowed whatever the mode is. *)
Theorem isAllowedByRules_whitelisted (domain : JsString)
  (rules : option SiteRules) :
  ruleIs (entryOf domain rules) "whitelist" = true ->
  allowed (isAllowedByRules domain rules) = true.
Proof.
  intros Hw. rewrite isAllowedByRules_unfold. cbv zeta.
  rewrite Hw, (ruleIs_exclusive' _ Hw).
  repeat match goal with
         | |- context [if ?b then _ else _] => destruct b
         end; reflexivity.
Qed.

Lemma isAllowedByRules_whitelisted_witness :
  allowed (isAllowedByRules (js "jobs.example.com") (Some sampleRules)) = true.
Proof.
  apply (isAllowedByRules_whitelisted (js "jobs.example.com")
           (Some sampleRules)).
  reflexivity.
Defined.

(** The neutral mode (also when no mode is stored) and the blacklist mode
    allow the same domains: both refuse the blacklisted ones and no other;
    and in whitelist mode a domain without a rule is refused. *)
Theorem isAllowedByRules_modes (domain : JsString)
  (ds : option (list (JsString * DomainEntry))) :
  allowed (isAllowedByRules domain (Some (mkRules (JsStr (js "neutral")) ds)))
  = allowed
      (isAllowedByRules domain (Some (mkRules (JsStr (js "blacklist")) ds)))
  /\ isAllowedByRules domain (Some (mkRules JsUndefined ds))
     = isAllowedByRules domain (Some (mkRules (JsStr (js "neutral")) ds))
  /\ isAllowedByRules domain None = mkVerdict true (js "neutral")
  /\ (entryOf domain (Some (mkRules (JsStr (js "whitelist")) ds)) = None ->
      allowed
        (isAllowedByRules domain
           (Some (mkRules (JsStr (js "whitelist")) ds))) = false).
Proof.
  rewrite !isAllowedByRules_unfold. cbv zeta.
  change (effectiveMode (Some (mkRules (JsStr (js "neutral")) ds)))
    with (js "neutral").
  change (effectiveMode (Some (mkRules (JsStr (js "blacklist")) ds)))
    with (js "blacklist").
  change (effectiveMode (Some (mkRules (JsStr (js "whitelist")) ds)))
    with (js "whitelist").
  change (effectiveMode (Some (mkRules JsUndefined ds))) with (js "neutral").
  change (effectiveMode None) with (js "neutral").
  change (str_eqb (js "neutral") (js "neutral")) with true.
  change (str_eqb (js "blacklist") (js "neutral")) with false.
  change (str_eqb (js "blacklist") (js "whitelist")) with false.
  change (str_eqb (js "blacklist") (js "blacklist")) with true.
  change (str_eqb (js "whitelist") (js "neutral")) with false.
  change (str_eqb (js "whitelist") (js "whitelist")) with true.
  cbn iota.
  change (entryOf domain (Some (mkRules (JsStr (js "blacklist")) ds)))
    with (entryOf domain (Some (mkRules (JsStr (js "neutral")) ds))).
  change (entryOf domain (Some (mkRules JsUndefined ds)))
    with (entryOf domain (Some (mkRules (JsStr (js "neutral")) ds))).
  split; [|split; [|split]].
  - now destruct (ruleIs _ "blacklist").
  - reflexivity.
  - reflexivity.
  - intros H. change (entryOf domain
                        (Some (mkRules (JsStr (js "whitelist")) ds)))
      with (entryOf domain (Some (mkRules (JsStr (js "neutral")) ds))) in H.
    change (entryOf domain (Some (mkRules (JsStr (js "whitelist")) ds)))
      with (entryOf domain (Some (mkRules (JsStr (js "neutral")) ds))).
    now rewrite H.
Qed.

Lemma getOwn_setOwn_same {V : Type} (m : list (JsString * V))
  (k : JsString) (v : V) :
  getOwn (setOwn m k v) k = Some v.
Proof.
  induction m as [|[k' v'] m IH]; cbn.
  - now rewrite str_eqb_refl.
  - destruct (str_eqb k' k) eqn:E; cbn; rewrite E; [reflexivity | exact IH].
Qed.

Lemma getOwn_setOwn_other {V : Type} (m : list (JsString * V))
  (k k' : JsString) (v : V) :
  k' <> k -> getOwn (setOwn m k v) k' = getOwn m k'.
Proof.
  intros Hne. induction m as [|[k0 v0] m IH]; cbn.
  - apply str_eqb_neq in Hne.
    destruct (str_eqb k k') eqn:E; [|reflexivity].
    apply str_eqb_eq in E. subst k'. now rewrite str_eqb_refl in Hne.
  - destruct (str_eqb k0 k) eqn:E; cbn.
    + apply str_eqb_eq in E. subst k0.
      destruct (str_eqb k k') eqn:E'; [|reflexivity].
      apply str_eqb_eq in E'. congruence.
    + destruct (str_eqb k0 k'); [reflexivity | exact IH].
Qed.

Lemma effectiveMode_withDomainRule (domain newRule : JsString)
  (stored : option SiteRules) :
  effectiveMode (Some (withDomainRule domain newRule stored))
  = effectiveMode stored.
Proof. destruct stored as [sr|]; reflexivity. Qed.

Lemma entryOf_withDomainRule_other (domain newRule d : JsString)
  (stored : option SiteRules) :
  d <> domain ->
  entryOf d (Some (withDomainRule domain newRule stored)) = entryOf d stored.
Proof.
  intros Hne. unfold withDomainRule, entryOf. cbn [domains].
  rewrite (getOwn_setOwn_other _ _ _ _ Hne).
  destruct stored as [sr|]; [|reflexivity].
  destruct (domains sr); reflexivity.
Qed.

Lemma withDomainRule_entry (domain newRule : JsString)
  (stored : option SiteRules) :
  exists e,
    entryOf domain (Some (withDomainRule domain newRule stored)) = Some e
    /\ rule e = JsStr newRule
    /\ (forall old, entryOf domain stored = Some old ->
          enabledTypes e = enabledTypes old
          /\ disabledTypes e = disabledTypes old
          /\ customMap e = customMap old).
Proof.
  unfold withDomainRule, entryOf. cbn [domains].
  rewrite getOwn_setOwn_same. eexists. split; [reflexivity|].
  split; [reflexivity|].
  intros old Hold. destruct stored as [s0|]; [|discriminate].
  cbn [domains]. destruct (domains s0) as [ds|]; [|discriminate].
  rewrite Hold. cbn. auto.
Qed.

Lemma withDomainRule_others (domain newRule d : JsString)
  (stored : option SiteRules) :
  d <> domain ->
  isAllowedByRules d (Some (withDomainRule domain newRule stored))
  = isAllowedByRules d stored.
Proof.
  intros Hd. rewrite !isAllowedByRules_unfold. cbv zeta.
  now rewrite effectiveMode_withDomainRule, entryOf_withDomainRule_other.
Qed.

Lemma withDomainRule_verdict (domain : JsString) (stored : option SiteRules) :
  allowed (isAllowedByRules domain
             (Some (withDomainRule domain (js "whitelist") stored))) = true
  /\ (In (effectiveMode stored) knownModes ->
      allowed (isAllowedByRules domain
                 (Some (withDomainRule domain (js "blacklist") stored)))
      = false).
Proof.
  split.
  - destruct (withDomainRule_entry domain (js "whitelist") stored)
      as (e & He & Hr & _).
    rewrite isAllowedByRules_unfold. cbv zeta. rewrite He.
    assert (Hw : ruleIs (Some e) "whitelist" = true).
    { unfold ruleIs. rewrite Hr. apply str_eqb_refl. }
    rewrite Hw, (ruleIs_exclusive' _ Hw).
    repeat match goal with
           | |- context [if ?b then _ else _] => destruct b
           end; reflexivity.
  - intros Hm.
    destruct (withDomainRule_entry domain (js "blacklist") stored)
      as (e & He & Hr & _).
    rewrite isAllowedByRules_unfold. cbv zeta.
    rewrite He, effectiveMode_withDomainRule.
    assert (Hb : ruleIs (Some e) "blacklist" = true).
    { unfold ruleIs. rewrite Hr. apply str_eqb_refl. }
    rewrite Hb, (ruleIs_exclusive _ Hb).
    destruct Hm as [<-|[<-|[<-|[]]]]; reflexivity.
Qed.

(** Setting the rule of a domain from the popup.  Without a domain, or when
    the store does not answer the read with [ok], nothing is sent.
    Otherwise, for a domain that is none of the member names of
    [Object.prototype], the rules sent back have the new rule in the entry
    of the domain, which keeps its lists of field types and its custom map;
    the mode is kept; and the verdict on every other domain is what it
    was. *)
Theorem updateDomainRule_sets_one_rule (domain newRule : JsString)
  (get : GetResponse) :
  (domain = [] \/ get_ok get = false ->
   updateDomainRule domain newRule get = None)
  /\ (domain <> [] -> get_ok get = true ->
      existsb (str_eqb domain) OBJECT_PROTOTYPE_KEYS = false ->
      exists sr e,
        updateDomainRule domain newRule get = Some sr
        /\ entryOf domain (Some sr) = Some e
        /\ rule e = JsStr newRule
        /\ (forall old, entryOf domain (get_siteRules get) = Some old ->
              enabledTypes e = enabledTypes old
              /\ disabledTypes e = disabledTypes old
              /\ customMap e = customMap old)
        /\ effectiveMode (Some sr) = effectiveMode (get_siteRules get)
        /\ (forall d, d <> domain ->
              isAllowedByRules d (Some sr)
              = isAllowedByRules d (get_siteRules get))).
Proof.
  split.
  - unfold updateDomainRule. intros [->|H]; [reflexivity|].
    rewrite H. now destruct (negb (truthy domain)).
  - intros Hne Hok _. apply truthy_true in Hne.
    unfold updateDomainRule. rewrite Hne, Hok. cbn [negb].
    destruct (withDomainRule_entry domain newRule (get_siteRules get))
      as (e & He1 & He2 & He3).
    exists (withDomainRule domain newRule (get_siteRules get)), e.
    split; [reflexivity|]. split; [exact He1|]. split; [exact He2|].
    split; [exact He3|].
    split; [apply effectiveMode_withDomainRule|].
    intros d Hd. now apply withDomainRule_others.
Qed.

Lemma updateDomainRule_sets_one_rule_witness :
  updateDomainRule (js "jobs.example.com") (js "blacklist") noResponse = None
  /\ exists sr e,
       updateDomainRule (js "jobs.example.com") (js "blacklist")
         (mkGet true (Some sampleRules)) = Some sr
       /\ entryOf (js "jobs.example.com") (Some sr) = Some e
       /\ rule e = JsStr (js "blacklist")
       /\ (forall old,
             entryOf (js "jobs.example.com") (Some sampleRules) = Some old ->
             enabledTypes e = enabledTypes old
             /\ disabledTypes e = disabledTypes old
             /\ customMap e = customMap old)
       /\ effectiveMode (Some sr) = effectiveMode (Some sampleRules)
       /\ (forall d, d <> js "jobs.example.com" ->
             isAllowedByRules d (Some sr)
             = isAllowedByRules d (Some sampleRules)).
Proof.
  split.
  - apply (proj1 (updateDomainRule_sets_one_rule (js "jobs.example.com")
                    (js "blacklist") noResponse)).
    right. reflexivity.
  - apply (proj2 (updateDomainRule_sets_one_rule (js "jobs.example.com")
                    (js "blacklist") (mkGet true (Some sampleRules)))).
    + vm_compute. discriminate.
    + reflexivity.
    + reflexivity.
Defined.

(** After the popup whitelists a domain, the store having answered the
    read, the domain is allowed under the rules sent back, whatever the mode
    is; after it blacklists a domain, the domain is refused under them in
    each of the three modes.  The domain is none of the member names of
    [Object.prototype]. *)
Theorem updateDomainRule_then_verdict (domain : JsString)
  (get : GetResponse) :
  domain <> [] -> get_ok get = true ->
  existsb (str_eqb domain) OBJECT_PROTOTYPE_KEYS = false ->
  (exists sr,
     updateDomainRule domain (js "whitelist") get = Some sr
     /\ allowed (isAllowedByRules domain (Some sr)) = true)
  /\ (In (effectiveMode (get_siteRules get)) knownModes ->
      exists sr,
        updateDomainRule domain (js "blacklist") get = Some sr
        /\ allowed (isAllowedByRules domain (Some sr)) = false).
Proof.
  intros Hne Hok _. apply truthy_true in Hne.
  unfold updateDomainRule. rewrite Hne, Hok. cbn [negb].
  destruct (withDomainRule_verdict domain (get_siteRules get)) as [Hw Hb].
  split; [eauto|]. intros Hm. eauto.
Qed.

Lemma updateDomainRule_then_verdict_witness :
  (exists sr,
     updateDomainRule (js "ads.example.net") (js "whitelist")
       (mkGet true (Some sampleRules)) = Some sr
     /\ allowed (isAllowedByRules (js "ads.example.net") (Some sr)) = true)
  /\ exists sr,
       updateDomainRule (js "jobs.example.com") (js "blacklist")
         (mkGet true (Some sampleRules)) = Some sr
       /\ allowed (isAllowedByRules (js "jobs.example.com") (Some sr))
          = false.
Proof.
  split.
  - apply (proj1 (updateDomainRule_then_verdict (js "ads.example.net")
                    (mkGet true (Some sampleRules))
                    ltac:(vm_compute; discriminate) eq_refl eq_refl)).
  - apply (proj2 (updateDomainRule_then_verdict (js "jobs.example.com")
                    (mkGet true (Some sampleRules))
                    ltac:(vm_compute; discriminate) eq_refl eq_refl)).
    right. left. reflexivity.
Defined.

Lemma stripWww_only (s : JsString) :
  map asciiLower s = js "www." -> stripWww s = [].
Proof.
  intros H. unfold stripWww. rewrite H.
  change (startsWith (js "www.") (js "www.")) with true. cbn iota.
  assert (Hlen : List.length s = 4%nat).
  { rewrite <- (length_map asciiLower), H. reflexivity. }
  destruct s as [|a [|b [|c [|d [|x r]]]]]; try discriminate Hlen.
  reflexivity.
Qed.

(** Adding a rule from the options page.  A domain field that is blank, or
    that holds "www." alone in any case, sends nothing, and neither does a
    read that the store does not answer with [ok].  Otherwise the rule is
    sent back under the text of the field without the white space around it
    and without one leading "www.", in the case in which it was typed, that
    key being none of the member names of [Object.prototype]; whitelisted
    there, a domain looked up under that very key is allowed whatever the
    mode is. *)
Theorem addOrUpdateDomainRule_normalises (domainInput : JsString)
  (get : GetResponse) :
  (forall r,
     trim domainInput = [] \/ map asciiLower (trim domainInput) = js "www."
     \/ get_ok get = false ->
     addOrUpdateDomainRule domainInput r get = None)
  /\ (stripWww (trim domainInput) <> [] -> get_ok get = true ->
      existsb (str_eqb (stripWww (trim domainInput))) OBJECT_PROTOTYPE_KEYS
      = false ->
      forall r, exists sr e,
        addOrUpdateDomainRule domainInput r get = Some sr
        /\ entryOf (stripWww (trim domainInput)) (Some sr) = Some e
        /\ rule e = JsStr r
        /\ (r = js "whitelist" ->
            allowed (isAllowedByRules (stripWww (trim domainInput))
                       (Some sr)) = true)).
Proof.
  split.
  - intros r H. unfold addOrUpdateDomainRule. cbv zeta.
    destruct H as [H|[H|H]].
    + now rewrite H.
    + now rewrite (stripWww_only _ H).
    + rewrite H. now destruct (negb (truthy _)).
  - intros Hne Hok _ r. apply truthy_true in Hne.
    unfold addOrUpdateDomainRule. cbv zeta. rewrite Hne, Hok. cbn [negb].
    destruct (withDomainRule_entry (stripWww (trim domainInput)) r
                (get_siteRules get))
      as (e & He & Hr & _).
    exists (withDomainRule (stripWww (trim domainInput)) r
              (get_siteRules get)), e.
    split; [reflexivity|]. split; [exact He|]. split; [exact Hr|].
    intros ->. apply withDomainRule_verdict.
Qed.

Lemma addOrUpdateDomainRule_normalises_witness :
  addOrUpdateDomainRule (js "  WWW. ") (js "blacklist")
    (mkGet true (Some sampleRules)) = None
  /\ addOrUpdateDomainRule (js "example.com") (js "blacklist") noResponse
     = None
  /\ exists sr e,
       addOrUpdateDomainRule (js " www.example.com ") (js "whitelist")
         (mkGet true (Some sampleRules)) = Some sr
       /\ entryOf (js "example.com") (Some sr) = Some e
       /\ rule e = JsStr (js "whitelist")
       /\ (js "whitelist" = js "whitelist" ->
           allowed (isAllowedByRules (js "example.com") (Some sr)) = true).
Proof.
  split; [|split].
  - apply (proj1 (addOrUpdateDomainRule_normalises (js "  WWW. ")
                    (mkGet true (Some sampleRules)))).
    right. left. reflexivity.
  - apply (proj1 (addOrUpdateDomainRule_normalises (js "example.com")
                    noResponse)).
    right. right. reflexivity.
  - apply (proj2 (addOrUpdateDomainRule_normalises (js " www.example.com ")
                    (mkGet true (Some sampleRules)))).
    + vm_compute. discriminate.
    + reflexivity.
    + reflexivity.
Defined.

(* ===================================================================== *)
(** ** Frames and their reports *)
(* ===================================================================== *)

Lemma uniqFrom_In (l seen : list Z) (x : Z) :
  In x (uniqFrom seen l) <-> In x l /\ ~ In x seen.
Proof.
  revert seen. induction l as [|y l IH]; intros seen; cbn; [tauto|].
  destruct (existsb (Z.eqb y) seen) eqn:E.
  - apply existsb_exists in E. destruct E as (z & Hz & Hyz).
    apply Z.eqb_eq in Hyz. subst z. rewrite IH.
    split; [tauto|]. intros [[->|H] Hn]; tauto.
  - assert (Hy : ~ In y seen).
    { intros Hin. assert (existsb (Z.eqb y) seen = true); [|congruence].
      apply existsb_exists. exists y. split; [exact Hin | apply Z.eqb_refl]. }
    cbn. rewrite IH. cbn. split.
    + intros [->|[H Hn]]; [tauto|]. split; [tauto|]. tauto.
    + intros [[->|H] Hn]; [tauto|].
      destruct (Z.eq_dec y x) as [->|Hne]; [tauto|]. right. split; [exact H|].
      intros [->|Hs]; tauto.
Qed.

Lemma uniqFrom_NoDup (l seen : list Z) : NoDup (uniqFrom seen l).
Proof.
  revert seen. induction l as [|y l IH]; intros seen; cbn; [constructor|].
  destruct (existsb (Z.eqb y) seen); [apply IH|].
  constructor; [|apply IH].
  rewrite uniqFrom_In. cbn. tauto.
Qed.

(** The frame ids to which a message is sent: the top frame 0 is always
    among them, no id comes twice, and they are 0 and the numeric ids that
    the browser reports, no others; when the browser reports nothing the
    message goes to frame 0 alone. *)
Theorem getAllFrameIds_spec (frames : option (list (option Z))) :
  NoDup (getAllFrameIds frames)
  /\ In 0 (getAllFrameIds frames)
  /\ (forall v, In v (getAllFrameIds frames)
                <-> v = 0 \/ exists fs, frames = Some fs /\ In (Some v) fs)
  /\ (frames = None \/ frames = Some [] -> getAllFrameIds frames = [0]).
Proof.
  unfold getAllFrameIds. cbv zeta.
  set (ids := flat_map _ _).
  assert (Hids : forall v, In v ids
                           <-> exists fs, frames = Some fs /\ In (Some v) fs).
  { intros v. unfold ids. rewrite in_flat_map. split.
    - intros ([w|] & Hin & Hv); [|destruct Hv].
      destruct Hv as [->|[]]. destruct frames as [fs|]; [|destruct Hin].
      eauto.
    - intros (fs & -> & Hin). exists (Some v). split; [exact Hin | now left]. }
  assert (Hmem : forall v,
            In v (if negb (existsb (Z.eqb 0) ids) then 0 :: ids else ids)
            <-> v = 0 \/ In v ids).
  { intros v. destruct (existsb (Z.eqb 0) ids) eqn:E; cbn [negb].
    - apply existsb_exists in E. destruct E as (z & Hz & H0).
      apply Z.eqb_eq in H0. subst z. split; [tauto|].
      intros [->|H]; assumption.
    - cbn. split; intros [H|H]; auto. }
  split; [apply uniqFrom_NoDup|].
  split; [apply uniqFrom_In; split; [apply Hmem; now left | intros []]|].
  split.
  - intros v. rewrite uniqFrom_In, Hmem, Hids. cbn. tauto.
  - intros [->| ->]; reflexivity.
Qed.

Lemma plusSummary_zero_r (a : Summary) :
  plusSummary a (mkSummary 0 0 0 0 []) = a.
Proof.
  destruct a. unfold plusSummary. cbn. rewrite app_nil_r.
  f_equal; lia.
Qed.

Lemma plusSummary_assoc (a b c : Summary) :
  plusSummary (plusSummary a b) c = plusSummary a (plusSummary b c).
Proof.
  unfold plusSummary. cbn. rewrite app_assoc. f_equal; lia.
Qed.

Lemma summarizeFrame_plus (acc : Summary) (fr : FrameResult) :
  summarizeFrame acc fr
  = plusSummary acc (summarizeFrame (mkSummary 0 0 0 0 []) fr).
Proof.
  unfold summarizeFrame, plusSummary.
  destruct (fr_ok fr); cbn [negb];
    [destruct (fr_res fr) as [p|];
       [destruct (p_ok p); cbn [negb];
          [destruct (report p) as [rep|];
             [destruct (stats rep)|]|]|]|];
    cbn; rewrite ?app_nil_r; f_equal; lia.
Qed.

Lemma fold_summarizeFrame_plus (frs : list FrameResult) (acc : Summary) :
  fold_left summarizeFrame frs acc
  = plusSummary acc (fold_left summarizeFrame frs (mkSummary 0 0 0 0 [])).
Proof.
  revert acc. induction frs as [|fr frs IH]; intros acc; cbn [fold_left].
  - now rewrite plusSummary_zero_r.
  - rewrite IH, (IH (summarizeFrame _ fr)), (summarizeFrame_plus acc fr).
    apply plusSummary_assoc.
Qed.

(** The summary of the frames of two pages put together is the sum of their
    summaries, count by count, with the reports of the first before those of
    the second. *)
Theorem summarizeFillResults_app (a b : list FrameResult) :
  summarizeFillResults (a ++ b)
  = plusSummary (summarizeFillResults a) (summarizeFillResults b).
Proof.
  unfold summarizeFillResults. rewrite fold_left_app.
  apply fold_summarizeFrame_plus.
Qed.



